(** * The Chrome history tool of my-mcp-samples

    A shallow embedding of [src/mcp/chrome-hist-tool.ts] (and, for
    comparison, of the feed tool registered next to it in
    [src/mcp/server.ts]) together with the properties its specification
    states about it.

    Conventions of the embedding.
    - JavaScript strings are [string]s: the bytes of the UTF-8 encoding
      of the string.
    - The finite numbers of JavaScript are rationals [Q], and every
      arithmetic operation of the source rounds its exact result to
      binary64 ([Binary64.round]: to the nearest number with a significand
      of 53 bits, a tie going to the even one). Readings of the clock, time
      values of [Date] and the INTEGER column of SQLite are integers [Z];
      they become numbers where the source computes with them. The
      magnitudes that occur stay far below [2 ^ 1024], where binary64 would
      answer [Infinity].
    - The file system, the clock and the console are an explicit [World]
      threaded through a state-and-exception monad [M]; what the runtime
      decides and the program cannot (whether a system call fails) is read
      from the [Host] record.
    - [throw] is the [Throw] outcome; the rejected promise of an [async]
      handler is the [Throw] outcome of its body. *)

From Stdlib Require Import ZArith QArith Qround Qabs Qpower Ascii List Lia Lqa.
From Stdlib Require Import Sorted Permutation.
From stdpp Require Import base gmap strings list sorting pretty.

Local Open Scope Z_scope.

(** ** JavaScript strings *)

Module JsString.

Definition nl : string := String (ascii_of_nat 10) "".
Definition backslash : ascii := ascii_of_nat 92.

(** [String.prototype.toLowerCase], on the ASCII letters. The source
    lowers a string only to look for the word [microsoft] in it, and the
    lowering of the letters beyond ASCII makes no occurrence of that word
    appear or disappear. *)
Definition lower_ascii (c : ascii) : ascii :=
  let n := nat_of_ascii c in
  if ((65 <=? n) && (n <=? 90))%nat then ascii_of_nat (n + 32) else c.

Fixpoint toLowerCase (s : string) : string :=
  match s with
  | EmptyString => EmptyString
  | String c r => String (lower_ascii c) (toLowerCase r)
  end.

Fixpoint startsWith (p s : string) : bool :=
  match p, s with
  | EmptyString, _ => true
  | String a p', String b s' => if decide (a = b) then startsWith p' s' else false
  | String _ _, EmptyString => false
  end.

(** [String.prototype.includes]. *)
Fixpoint includes (needle hay : string) : bool :=
  startsWith needle hay ||
  match hay with
  | EmptyString => false
  | String _ r => includes needle r
  end.

(** The white space and the line terminators of ECMAScript beyond ASCII,
    by the bytes of their UTF-8 encoding: U+00A0; U+1680, U+2000 to
    U+200A, U+2028, U+2029, U+202F, U+205F, U+3000 and U+FEFF. *)
Definition is_space2 (a b : ascii) : bool :=
  ((nat_of_ascii a =? 194) && (nat_of_ascii b =? 160))%nat.

Definition is_space3 (a b c : ascii) : bool :=
  let x := nat_of_ascii a in
  let y := nat_of_ascii b in
  let z := nat_of_ascii c in
  ((x =? 225) && (y =? 154) && (z =? 128)
   || (x =? 226) && (y =? 128)
      && ((128 <=? z) && (z <=? 138) || (z =? 168) || (z =? 169) || (z =? 175))
   || (x =? 226) && (y =? 129) && (z =? 159)
   || (x =? 227) && (y =? 128) && (z =? 128)
   || (x =? 239) && (y =? 187) && (z =? 191))%nat.

(** What follows the white space character at the start of a string;
    with [backwards], of a string that is read from its end. *)
Definition space_prefix (backwards : bool) (s : string) : option string :=
  match s with
  | String a r =>
      if Ascii.is_space a then Some r
      else
        match r with
        | String b r' =>
            if (if backwards then is_space2 b a else is_space2 a b) then Some r'
            else
              match r' with
              | String c r'' =>
                  if (if backwards then is_space3 c b a else is_space3 a b c)
                  then Some r'' else None
              | EmptyString => None
              end
        | EmptyString => None
        end
  | EmptyString => None
  end.

(** The string without the white space at its start; every step removes
    one character at least, and the length of the string is fuel enough. *)
Fixpoint strip (backwards : bool) (fuel : nat) (s : string) : string :=
  match fuel with
  | O => s
  | S fuel' =>
      match space_prefix backwards s with
      | Some r => strip backwards fuel' r
      | None => s
      end
  end.

(** [String.prototype.trimStart]. *)
Definition trimStart (s : string) : string := strip false (String.length s) s.

(** [String.prototype.trim]. *)
Definition trim (s : string) : string :=
  let t := String.rev (trimStart s) in
  String.rev (strip true (String.length t) t).

(** [Array.prototype.join]. *)
Fixpoint join (sep : string) (l : list string) : string :=
  match l with
  | [] => ""
  | [x] => x
  | x :: rest => x +:+ sep +:+ join sep rest
  end.

(** [String.prototype.split] at the characters [sep]: the segments
    between separators, empty ones included. *)
Fixpoint split (sep : ascii -> bool) (s : string) : list string :=
  match s with
  | EmptyString => [""]
  | String c r =>
      if sep c then "" :: split sep r
      else match split sep r with
           | [] => [String c ""]
           | seg :: segs => String c seg :: segs
           end
  end.

Fixpoint last_char (s : string) : option ascii :=
  match s with
  | EmptyString => None
  | String c EmptyString => Some c
  | String _ r => last_char r
  end.

Definition first_char (s : string) : option ascii :=
  match s with
  | String c _ => Some c
  | EmptyString => None
  end.

(** The truthiness of a string: [s || d] is [d] exactly for the empty
    string. *)
Definition or_else (s d : string) : string :=
  match s with EmptyString => d | _ => s end.

End JsString.

(** ** Node's [path.join] *)

Module Path.
Import JsString.

Definition is_slash (c : ascii) : bool := bool_decide (c = "/"%char).
Definition is_win_sep (c : ascii) : bool :=
  bool_decide (c = "/"%char) || bool_decide (c = backslash).

(** [normalizeString] of Node's [lib/path.js], on the list of segments:
    empty and ["."] segments vanish, [".."] removes the segment before it
    or, above the start of a relative path, stays. [acc] is the result so
    far, last segment first. *)
Fixpoint normalize_segments (allowAboveRoot : bool) (acc segs : list string)
  : list string :=
  match segs with
  | [] => rev acc
  | seg :: rest =>
      if bool_decide (seg = "") || bool_decide (seg = ".") then
        normalize_segments allowAboveRoot acc rest
      else if bool_decide (seg = "..") then
        match acc with
        | top :: acc' =>
            if bool_decide (top = "..") then
              normalize_segments allowAboveRoot
                (if allowAboveRoot then seg :: acc else acc) rest
            else normalize_segments allowAboveRoot acc' rest
        | [] =>
            normalize_segments allowAboveRoot
              (if allowAboveRoot then [seg] else []) rest
        end
      else normalize_segments allowAboveRoot (seg :: acc) rest
  end.

Definition is_some_and {A} (p : A -> bool) (o : option A) : bool :=
  match o with Some a => p a | None => false end.

(** [path.posix.normalize]. *)
Definition posix_normalize (p : string) : string :=
  match p with
  | EmptyString => "."
  | _ =>
      let isAbsolute := is_some_and is_slash (first_char p) in
      let trailingSeparator := is_some_and is_slash (last_char p) in
      let body :=
        join "/" (normalize_segments (negb isAbsolute) [] (split is_slash p)) in
      match body with
      | EmptyString =>
          if isAbsolute then "/" else if trailingSeparator then "./" else "."
      | _ =>
          let body' := if trailingSeparator then body +:+ "/" else body in
          if isAbsolute then "/" +:+ body' else body'
      end
  end.

(** [path.posix.join] of two arguments. *)
Definition posix_join (a b : string) : string :=
  match a, b with
  | EmptyString, EmptyString => "."
  | EmptyString, _ => posix_normalize b
  | _, EmptyString => posix_normalize a
  | _, _ => posix_normalize (a +:+ "/" +:+ b)
  end.

(** [path.win32.join] of two arguments, for paths with an optional drive
    letter ([C:]) in front; both [/] and [\] separate, the result uses
    [\]. UNC paths ([\\server\share]) are outside this model. *)
Definition is_letter (c : ascii) : bool :=
  let n := nat_of_ascii c in
  (((65 <=? n) && (n <=? 90)) || ((97 <=? n) && (n <=? 122)))%nat.

Definition split_device (p : string) : string * string :=
  match p with
  | String d (String c r) =>
      if is_letter d && bool_decide (c = ":"%char)
      then (String d (String c ""), r) else ("", p)
  | _ => ("", p)
  end.

Definition win32_normalize (p : string) : string :=
  match p with
  | EmptyString => "."
  | _ =>
      let '(device, r) := split_device p in
      let isAbsolute := is_some_and is_win_sep (first_char r) in
      let trailingSeparator := is_some_and is_win_sep (last_char r) in
      let sep := String backslash "" in
      let tail :=
        join sep (normalize_segments (negb isAbsolute) [] (split is_win_sep r)) in
      let tail1 :=
        match tail with
        | EmptyString => if isAbsolute then "" else "."
        | _ => tail
        end in
      let tail2 :=
        match tail1 with
        | EmptyString => tail1
        | _ => if trailingSeparator then tail1 +:+ sep else tail1
        end in
      device +:+ (if isAbsolute then sep else "") +:+ tail2
  end.

Definition win32_join (a b : string) : string :=
  match a, b with
  | EmptyString, EmptyString => "."
  | EmptyString, _ => win32_normalize b
  | _, EmptyString => win32_normalize a
  | _, _ => win32_normalize (a +:+ String backslash "" +:+ b)
  end.

End Path.

(** ** The numbers of JavaScript *)

Module Binary64.

(** [floor (log2 q)] of a positive rational. *)
Definition Qlog2 (q : Q) : Z :=
  let k := Z.log2 (Qnum q) - Z.log2 (Zpos (Qden q)) in
  if Qle_bool (2 ^ k) q then k else k - 1.

(** The exponent of the unit in the last place of the binary64 numbers
    around [q]: 52 below the exponent of [q], and never below that of the
    subnormal numbers. *)
Definition ulp_exp (q : Q) : Z := Z.max (Qlog2 (Qabs q) - 52) (-1074).

(** The nearest integer, a tie going to the even one. *)
Definition round_half_even (q : Q) : Z :=
  let f := Qfloor q in
  match (q - inject_Z f ?= 1 # 2)%Q with
  | Lt => f
  | Gt => f + 1
  | Eq => if Z.even f then f else f + 1
  end.

Definition round (q : Q) : Q :=
  if Qeq_bool q 0 then 0%Q
  else
    let e := ulp_exp q in
    (inject_Z (round_half_even (q / 2 ^ e)) * 2 ^ e)%Q.

Definition add (a b : Q) : Q := round (a + b).
Definition sub (a b : Q) : Q := round (a - b).
Definition mul (a b : Q) : Q := round (a * b).
Definition div (a b : Q) : Q := round (a / b).

End Binary64.

(** A number of binary64: [m * 2 ^ e] with a significand of at most 53
    bits and an exponent not below that of the subnormal numbers. *)
Definition representable (q : Q) : Prop :=
  exists m e : Z, Z.abs m <= 2 ^ 53 /\ -1074 <= e /\ (q == inject_Z m * 2 ^ e)%Q.


(** ** Timestamps *)

(** Line 11: the distance, in milliseconds, from 1601-01-01 to 1970-01-01. *)
Definition WEBKIT_EPOCH_OFFSET : Z := 11644473600000.

(** Line 112: Unix milliseconds to WebKit microseconds,
    [(startOfToday.getTime() + WEBKIT_EPOCH_OFFSET) * 1000]. *)
Definition chromeTimeStart (startOfToday : Q) : Q :=
  Binary64.mul (Binary64.add startOfToday (inject_Z WEBKIT_EPOCH_OFFSET)) 1000.

(** Line 131: WebKit microseconds to Unix milliseconds,
    [(row.last_visit_time / 1000) - WEBKIT_EPOCH_OFFSET]. The division is
    the division of numbers, not of integers: the result may have a
    fractional part. *)
Definition visitTimeMs (last_visit_time : Q) : Q :=
  Binary64.sub (Binary64.div last_visit_time 1000) (inject_Z WEBKIT_EPOCH_OFFSET).

(** The [Date] object of ECMAScript, as far as the tool uses it. A time
    value is an integer number of milliseconds since 1970-01-01T00:00:00Z,
    or the invalid date [None] (whose [getTime()] is [NaN]). *)
Module JsDate.
Import JsString.

(** [ToIntegerOrInfinity]: the fractional part is dropped, towards 0. *)
Definition trunc (q : Q) : Z :=
  if Qlt_le_dec q 0 then Qceiling q else Qfloor q.

Definition maxTime : Z := 8640000000000000.

(** [TimeClip] of an integer. *)
Definition time_clip (t : Z) : option Z :=
  if Z.abs t <=? maxTime then Some t else None.

(** [new Date(value)], through [TimeClip]. *)
Definition of_number (q : Q) : option Z :=
  if Qle_bool (Qabs q) (inject_Z maxTime) then Some (trunc q) else None.

Definition msPerDay : Z := 86400000.

(** The time zone of the host: the offset of local time from UTC, in
    milliseconds, before the first transition, and the transitions in
    ascending order, each with the instant from which its offset holds. *)
Record TimeZone := {
  first_offset : Z;
  transitions : list (Z * Z);
}.

Fixpoint offset_from (o : Z) (ts : list (Z * Z)) (t : Z) : Z :=
  match ts with
  | [] => o
  | (u, o') :: rest => if t <? u then o else offset_from o' rest t
  end.

(** The offset in force at the instant [t]. *)
Definition offset_at (z : TimeZone) (t : Z) : Z :=
  offset_from (first_offset z) (transitions z) t.

(** [LocalTime(t)]. *)
Definition LocalTime (z : TimeZone) (t : Z) : Z := t + offset_at z t.

(** [UTC(t)]: the instant at which the local time reads [l]. Of the two
    instants of a local time that a transition repeats it is the earlier
    one; a local time that a transition skips is read with the offset in
    force before the transition. *)
Fixpoint utc_from (o : Z) (ts : list (Z * Z)) (l : Z) : Z :=
  match ts with
  | [] => l - o
  | (u, o') :: rest =>
      if (l - o <? u) || (l - o' <? u) then l - o else utc_from o' rest l
  end.

Definition UTC (z : TimeZone) (l : Z) : Z :=
  utc_from (first_offset z) (transitions z) l.

(** [d.setHours(0, 0, 0, 0)] on the date of time value [t]: the start of
    the local day of [t]. *)
Definition setHours0 (z : TimeZone) (t : Z) : option Z :=
  time_clip (UTC z (LocalTime z t / msPerDay * msPerDay)).

(** Days since 1970-01-01 to the (year, month, day) of the proleptic
    Gregorian calendar. *)
Definition civil_from_days (days : Z) : Z * Z * Z :=
  let z := days + 719468 in
  let era := z / 146097 in
  let doe := z - era * 146097 in
  let yoe := (doe - doe / 1460 + doe / 36524 - doe / 146096) / 365 in
  let doy := doe - (365 * yoe + yoe / 4 - yoe / 100) in
  let mp := (5 * doy + 2) / 153 in
  let d := doy - (153 * mp + 2) / 5 + 1 in
  let m := if mp <? 10 then mp + 3 else mp - 9 in
  let y := yoe + era * 400 + (if m <=? 2 then 1 else 0) in
  (y, m, d).

Definition two_digits (n : Z) : string :=
  if n <? 10 then "0" +:+ pretty n else pretty n.

(** [d.toLocaleString('ja-JP')]: [Y/M/D H:MM:SS] in local time. *)
Definition toLocaleString_jaJP (z : TimeZone) (d : option Z) : string :=
  match d with
  | None => "Invalid Date"
  | Some t =>
      let l := LocalTime z t in
      let '(y, m, dd) := civil_from_days (l / msPerDay) in
      let r := l mod msPerDay in
      pretty y +:+ "/" +:+ pretty m +:+ "/" +:+ pretty dd +:+ " " +:+
      pretty (r / 3600000) +:+ ":" +:+
      two_digits (r mod 3600000 / 60000) +:+ ":" +:+
      two_digits (r mod 60000 / 1000)
  end.
End JsDate.

(** ** The world the tool runs in *)

(** A row of the [urls] table of Chrome's history database, with the three
    columns the query selects. [title] may be NULL. *)
Record UrlRow := {
  title : option string;
  url : string;
  last_visit_time : Z;
}.

(** What a file holds: a history database with its [urls] table, or bytes
    that SQLite does not accept as a database (any other file, and also a
    copy that was cut short). *)
Inductive FileData :=
| Opaque
| HistoryDb (urls : list UrlRow).

(** The entries built at lines 129-139 and what goes to the console. *)
Record Entry := {
  entry_title : string;
  entry_url : string;
  entry_time : string;
}.

Inductive LogEntry :=
| LogText (s : string)
| LogResults (results : list Entry).

Record World := {
  files : gmap string FileData;
  now : Z;                   (* what the next reading of the clock gives *)
  later : list Z;            (* the readings after that one *)
  console : list LogEntry;   (* [console.log], latest first *)
}.

(** How [fs.copyFileSync] can fail. Node documents that when an error
    occurs after the destination was opened for writing it attempts to
    remove the destination; the attempt itself may fail. *)
Inductive CopyFault :=
| CopyFailsBeforeOpen (code : string)
| CopyFailsAfterOpen (code : string) (destination_removed : bool).

(** What only the runtime decides: which system call of a run fails. Every
    call below happens at most once in a run of the tool. *)
Record Faults := {
  copy_fault : option CopyFault;
  unlink_fault : option string;
  open_fault : option string;
  close_fault : option string;
  query_fault : option string;
}.

Definition no_faults : Faults :=
  {| copy_fault := None; unlink_fault := None; open_fault := None;
     close_fault := None; query_fault := None |}.

Record Host := {
  platform : string;                (* [process.platform] *)
  os_release : string;              (* [os.release()] *)
  proc_version : option string;     (* [/proc/version], [None] if unreadable *)
  homedir : string;                 (* [os.homedir()] *)
  tmpdir : string;                  (* [os.tmpdir()] *)
  timezone : JsDate.TimeZone;       (* the time zone of the process *)
  tie_rank : UrlRow -> Z;           (* among rows of equal visit time, the
                                       order in which this SQLite returns
                                       them: lower rank first *)
  cmd_exe_username : option string; (* stdout of [cmd.exe /c "echo %USERNAME%"],
                                       [None] if the command fails *)
  faults : Faults;
}.

(** Node binds [path] to [path.win32] on Windows and to [path.posix]
    elsewhere. *)
Definition path_join (h : Host) (a b : string) : string :=
  if bool_decide (platform h = "win32") then Path.win32_join a b
  else Path.posix_join a b.

(** ** Exceptions and the monad of the handler *)

Inductive Exn :=
| Error (message : string)
| SystemError (syscall code path : string)
| SqliteError (message : string)
| SuppressedError (error suppressed : Exn).

Inductive Outcome (A : Type) :=
| Return (a : A)
| Throw (e : Exn).
Arguments Return {A} a.
Arguments Throw {A} e.

Definition M (A : Type) : Type := World -> Outcome A * World.

Definition ret {A} (a : A) : M A := fun w => (Return a, w).
Definition throw {A} (e : Exn) : M A := fun w => (Throw e, w).
Definition bind {A B} (m : M A) (k : A -> M B) : M B :=
  fun w =>
    match m w with
    | (Return a, w') => k a w'
    | (Throw e, w') => (Throw e, w')
    end.

Declare Scope js_scope.
Delimit Scope js_scope with js.
Notation "'let*' x := m 'in' k" := (bind m (fun x => k))
  (at level 10, x name, m at level 100, k at level 200) : js_scope.
Notation "m ;;; k" := (bind m (fun _ => k))
  (at level 100, k at level 200, right associativity) : js_scope.
Local Open Scope js_scope.

Definition lift_outcome {A} (o : Outcome A) : M A := fun w => (o, w).

Definition console_log (e : LogEntry) : M unit :=
  fun w => (Return tt,
            {| files := files w; now := now w; later := later w;
               console := e :: console w |}).

Definition with_files (f : gmap string FileData) (w : World) : World :=
  {| files := f; now := now w; later := later w; console := console w |}.

(** [Date.now()] and the time value of [new Date()]: the current reading of
    the clock. The clock then moves on to its next reading, which need not
    be a different one: two readings can fall into the same millisecond. *)
Definition tick (w : World) : World :=
  match later w with
  | [] => w
  | t :: ts =>
      {| files := files w; now := t; later := ts; console := console w |}
  end.

Definition Date_now : M Z := fun w => (Return (now w), tick w).

(** [try { body } catch (error) { handler(error) }]. *)
Definition try_catch {A} (body : M A) (handler : Exn -> M A) : M A :=
  fun w =>
    match body w with
    | (Return a, w') => (Return a, w')
    | (Throw e, w') => handler e w'
    end.

(** A [using] declaration: the resource is acquired, the rest of the block
    runs, and on the way out, whether the block completed or threw,
    [[Symbol.dispose]] of the resource is called. An error of the disposal
    replaces a normal completion and wraps a pending error in a
    [SuppressedError] (DisposeResources of ECMAScript). If acquiring the
    resource throws, nothing is registered and nothing is disposed. *)
Class Disposable (R : Type) := symbol_dispose : R -> M unit.

Definition using_ {R A} `{Disposable R} (acquire : M R) (block : R -> M A)
  : M A :=
  fun w =>
    match acquire w with
    | (Throw e, w1) => (Throw e, w1)
    | (Return r, w1) =>
        match block r w1 with
        | (Return a, w2) =>
            match symbol_dispose r w2 with
            | (Return _, w3) => (Return a, w3)
            | (Throw d, w3) => (Throw d, w3)
            end
        | (Throw e, w2) =>
            match symbol_dispose r w2 with
            | (Return _, w3) => (Throw e, w3)
            | (Throw d, w3) => (Throw (SuppressedError d e), w3)
            end
        end
    end.

(** ** The file system calls of Node the tool uses *)

Module Fs.

Definition existsSync (p : string) : M bool :=
  fun w => (Return (bool_decide (is_Some (files w !! p))), w).

(** [fs.copyFileSync(src, dst)]: [dst] is overwritten if it exists. *)
Definition copyFileSync (h : Host) (src dst : string) : M unit :=
  fun w =>
    match files w !! src with
    | None => (Throw (SystemError "copyfile" "ENOENT" src), w)
    | Some data =>
        match copy_fault (faults h) with
        | None => (Return tt, with_files (<[dst := data]> (files w)) w)
        | Some (CopyFailsBeforeOpen code) =>
            (Throw (SystemError "copyfile" code src), w)
        | Some (CopyFailsAfterOpen code removed) =>
            (Throw (SystemError "copyfile" code src),
             with_files (if removed then delete dst (files w)
                         else <[dst := Opaque]> (files w)) w)
        end
    end.

Definition unlinkSync (h : Host) (p : string) : M unit :=
  fun w =>
    match files w !! p with
    | None => (Throw (SystemError "unlink" "ENOENT" p), w)
    | Some _ =>
        match unlink_fault (faults h) with
        | Some code => (Throw (SystemError "unlink" code p), w)
        | None => (Return tt, with_files (delete p (files w)) w)
        end
    end.

End Fs.

(** ** better-sqlite3 and the query *)

Module Sqlite.

Record Database := { db_file : string }.

(** [new Database(dbPath, { readonly: true })]. *)
Definition open_readonly (h : Host) (dbPath : string) : M Database :=
  fun w =>
    match open_fault (faults h) with
    | Some msg => (Throw (SqliteError msg), w)
    | None =>
        match files w !! dbPath with
        | None => (Throw (SqliteError "unable to open database file"), w)
        | Some _ => (Return {| db_file := dbPath |}, w)
        end
    end.

Definition close (h : Host) (d : Database) : M unit :=
  fun w =>
    match close_fault (faults h) with
    | Some msg => (Throw (SqliteError msg), w)
    | None => (Return tt, w)
    end.

(** The value of a LIMIT expression must convert to an integer without
    loss, else the statement fails: a number passes when it has no
    fractional part and lies strictly between [- 2 ^ 63] and [2 ^ 63]. *)
Definition as_integer (q : Q) : option Z :=
  let r := Qred q in
  if (Qden r =? 1)%positive
     && (-9223372036854775808 <? Qnum r) && (Qnum r <? 9223372036854775808)
  then Some (Qnum r) else None.

(** [LIMIT n]: the first [n] rows; a negative [n] is no bound at all. *)
Definition apply_limit {A} (n : Z) (l : list A) : list A :=
  if n <? 0 then l else take (Z.to_nat n) l.

(** [WHERE last_visit_time > ?]: the integer of the column against the
    number bound to the parameter, compared as they are. [NaN] is bound as
    NULL, and no row compares greater than NULL. *)
Definition selected (since : option Q) (row : UrlRow) : Prop :=
  match since with
  | None => False
  | Some bound => (bound < inject_Z (last_visit_time row))%Q
  end.

#[global] Instance selected_dec since row : Decision (selected since row).
Proof.
  unfold selected. destruct since as [bound|]; [|right; tauto].
  destruct (Qlt_le_dec bound (inject_Z (last_visit_time row))) as [H|H].
  - left. exact H.
  - right. intros C. exact (Qlt_not_le _ _ C H).
Defined.

(** [ORDER BY last_visit_time DESC]. SQL leaves the order of rows with
    equal visit times open; the engine's choice is the [rank] of the
    rows. *)
Definition recent_first (rank : UrlRow -> Z) (a b : UrlRow) : Prop :=
  last_visit_time b < last_visit_time a \/
  (last_visit_time b = last_visit_time a /\ rank a <= rank b).

#[global] Instance recent_first_dec rank a b : Decision (recent_first rank a b).
Proof. unfold recent_first. apply _. Defined.

(** Lines 116-125:
    [SELECT title, url, last_visit_time FROM urls
     WHERE last_visit_time > ? ORDER BY last_visit_time DESC LIMIT ?]. *)
Definition query (rank : UrlRow -> Z) (urls : list UrlRow) (since : option Q)
    (limit : Q) : Outcome (list UrlRow) :=
  match as_integer limit with
  | None => Throw (SqliteError "datatype mismatch")
  | Some n =>
      Return (apply_limit n
                (merge_sort (recent_first rank) (filter (selected since) urls)))
  end.

(** [db.prepare(query).all(since, limit)]. *)
Definition prepare_all (h : Host) (d : Database) (since : option Q) (limit : Q)
  : M (list UrlRow) :=
  fun w =>
    match query_fault (faults h) with
    | Some msg => (Throw (SqliteError msg), w)
    | None =>
        match files w !! db_file d with
        | None => (Throw (SqliteError "unable to open database file"), w)
        | Some Opaque => (Throw (SqliteError "file is not a database"), w)
        | Some (HistoryDb urls) => (query (tie_rank h) urls since limit, w)
        end
    end.

End Sqlite.

(** ** The program: [src/mcp/chrome-hist-tool.ts] *)

Import JsString.

(** Lines 14-23. An unreadable [/proc/version] makes [readFileSync] throw,
    and the [catch] answers [false]. *)
Definition isWSL (h : Host) : bool :=
  if negb (bool_decide (platform h = "linux")) then false
  else
    match proc_version h with
    | None => false
    | Some v =>
        let release := toLowerCase (os_release h) in
        let version := toLowerCase v in
        includes "microsoft" release || includes "microsoft" version
    end.

(** Lines 26-34. *)
Definition getWindowsUsername (h : Host) : Outcome string :=
  match cmd_exe_username h with
  | Some stdout => Return (trim stdout)
  | None => Throw (Error "WSLからWindowsのユーザー名を取得できませんでした。")
  end.

(** Lines 37-49. *)
Definition getChromeHistoryPath (h : Host) : Outcome string :=
  let homeDir := homedir h in
  if bool_decide (platform h = "darwin") then
    Return (path_join h homeDir
              "Library/Application Support/Google/Chrome/Default/History")
  else if bool_decide (platform h = "win32") then
    Return (path_join h homeDir
              "AppData\Local\Google\Chrome\User Data\Default\History")
  else if bool_decide (platform h = "linux") then
    Return (path_join h homeDir ".config/google-chrome/Default/History")
  else Throw (Error "サポートされていないOSです").

(** Lines 51-64. The object returned carries its own [[Symbol.dispose]]. *)
Record TempCopy := {
  path : string;
  dispose_temp : M unit;
}.

#[global] Instance TempCopy_disposable : Disposable TempCopy := dispose_temp.

Definition tempName (t : Z) : string :=
  "chrome_history_copy_" +:+ pretty t +:+ ".sqlite".

(** Lines 57-62, the [[Symbol.dispose]] of the copy at [tempPath]. *)
Definition dispose_copy (h : Host) (tempPath : string) : M unit :=
  let* present := Fs.existsSync tempPath in
  if present : bool then
    Fs.unlinkSync h tempPath ;;;
    console_log (LogText ("Deleted temporary history DB copy: " +:+ tempPath))
  else ret tt.

Definition copyHistoryFile (h : Host) (srcPath : string) : M TempCopy :=
  let* t := Date_now in
  let tempPath := path_join h (tmpdir h) (tempName t) in
  Fs.copyFileSync h srcPath tempPath ;;;
  console_log (LogText ("Copied history DB to temporary path: " +:+ tempPath)) ;;;
  ret {| path := tempPath; dispose_temp := dispose_copy h tempPath |}.

(** Lines 66-74. *)
Record DbHandle := {
  db : Sqlite.Database;
  dispose_db : M unit;
}.

#[global] Instance DbHandle_disposable : Disposable DbHandle := dispose_db.

Definition openSqlite (h : Host) (dbPath : string) : M DbHandle :=
  let* d := Sqlite.open_readonly h dbPath in
  ret {| db := d;
         dispose_db :=
           Sqlite.close h d ;;;
           console_log (LogText "Closed SQLite database connection.") |}.

(** The response of a tool: [content[0].text] and
    [structuredContent.result]. *)
Record Response := {
  text : string;
  result : string;
}.

(** [limit || 10]: the default replaces [undefined] and [0]. *)
Definition limit_or_10 (limit : option Q) : Q :=
  match limit with
  | None => 10%Q
  | Some q => if Qeq_bool q 0 then 10%Q else q
  end.

(** The number that [startOfToday.getTime()] gives to line 112, and the
    number that line 112 makes of it; [None] is [NaN], which an invalid
    date gives and every operation hands on. *)
Definition chromeTimeStart_of (startOfToday : option Z) : option Q :=
  (fun t => chromeTimeStart (inject_Z t)) <$> startOfToday.

(** Lines 129-139. better-sqlite3 hands the INTEGER of the column over as
    a number: the nearest one. *)
Definition toEntry (h : Host) (row : UrlRow) : Entry :=
  let last_visit_time := Binary64.round (inject_Z (last_visit_time row)) in
  let visitDate := JsDate.of_number (visitTimeMs last_visit_time) in
  {| entry_title := or_else (default "" (title row)) "No Title";
     entry_url := url row;
     entry_time := JsDate.toLocaleString_jaJP (timezone h) visitDate |}.

(** Line 145. *)
Definition formatEntry (e : Entry) : string :=
  "## " +:+ entry_title e +:+ nl +:+
  "  - URL: " +:+ entry_url e +:+ nl +:+
  "  - Visited At: " +:+ entry_time e +:+ nl.

(** Lines 90-157: the handler that [registerChromeHistTool] registers as
    [chrome-hist-tool]. The input schema (lines 84-86) lets through an
    absent [limit] and any number. *)
Definition chrome_hist_tool (h : Host) (limit : option Q) : M Response :=
  let* historyPath := lift_outcome (getChromeHistoryPath h) in
  let* present := Fs.existsSync historyPath in
  if negb present then
    throw (Error ("Chromeの履歴ファイルが見つかりません: " +:+ historyPath))
  else
    using_ (copyHistoryFile h historyPath) (fun tempPath =>
    using_ (openSqlite h (path tempPath)) (fun dbHadnle =>
      let* t := Date_now in
      let startOfToday := JsDate.setHours0 (timezone h) t in
      let* rows :=
        Sqlite.prepare_all h (db dbHadnle)
          (chromeTimeStart_of startOfToday) (limit_or_10 limit) in
      let results := map (toEntry h) rows in
      console_log (LogResults results) ;;;
      let formattedHistory := join nl (map formatEntry results) in
      ret {| text := or_else formattedHistory "No browsing history found.";
             result := or_else formattedHistory "No browsing history found." |})).

(** ** A neighbour: the [qiita-feed] tool of [src/mcp/server.ts]

    It is registered on the same server, right after the history tool, and
    shows how the repository turns a failure into a response: the whole
    body sits in a [try], and the [catch] returns the usual shape with the
    message of the error. *)

Module Server.

(** An item of a parsed feed; every field may be missing. *)
Record FeedItem := {
  item_title : option string;
  item_link : option string;
  item_pubDate : option string;
  item_contentSnippet : option string;
}.

Record Article := {
  article_title : option string;
  article_link : option string;
  article_pubDate : option string;
  article_snippet : string;
}.

(** A template literal prints a missing value as [undefined]. *)
Definition show (o : option string) : string := default "undefined" o.

Definition hex_digit (n : nat) : ascii :=
  if (n <? 10)%nat then ascii_of_nat (48 + n) else ascii_of_nat (55 + n).

Definition is_unreserved (c : ascii) : bool :=
  let n := nat_of_ascii c in
  (((48 <=? n) && (n <=? 57)) || ((65 <=? n) && (n <=? 90)) ||
   ((97 <=? n) && (n <=? 122)))%nat
  || bool_decide (c ∈ ["-"; "_"; "."; "!"; "~"; "*"; "'"; "("; ")"]%char).

(** [encodeURIComponent] on the UTF-8 bytes of its argument. *)
Fixpoint encodeURIComponent (s : string) : string :=
  match s with
  | EmptyString => EmptyString
  | String c r =>
      if is_unreserved c then String c (encodeURIComponent r)
      else
        let n := nat_of_ascii c in
        String "%" (String (hex_digit (n / 16)) (String (hex_digit (n mod 16))
          (encodeURIComponent r)))
  end.

(** [s.substring(0, n)]: the first [n] UTF-16 code units of [s]. A
    character of one, two or three bytes is one code unit; a character of
    four bytes is a pair of surrogates, and where the cut falls between
    the two, the high surrogate that is left is written in the three bytes
    of the generalized encoding. *)
Definition continuation_bytes (c : ascii) : nat :=
  let n := nat_of_ascii c in
  if (n <? 192)%nat then 0%nat
  else if (n <? 224)%nat then 1%nat
  else if (n <? 240)%nat then 2%nat else 3%nat.

Definition byte_at (i : nat) (s : string) : nat :=
  match String.get i s with
  | Some c => nat_of_ascii c
  | None => 128%nat
  end.

Definition high_surrogate (lead : ascii) (r : string) : string :=
  let w :=
    ((nat_of_ascii lead mod 8) * 256 + (byte_at 0 r mod 64) * 4
     + (byte_at 1 r mod 64) / 16 - 64)%nat in
  String (ascii_of_nat 237)
    (String (ascii_of_nat (160 + w / 64))
       (String (ascii_of_nat (128 + w mod 64)) "")).

(** [pending] counts the bytes still to copy of a character that was let
    through. *)
Fixpoint take_units (n pending : nat) (s : string) : string :=
  match s with
  | EmptyString => EmptyString
  | String c r =>
      match pending with
      | S p => String c (take_units n p r)
      | O =>
          match n with
          | O => EmptyString
          | S n' =>
              match continuation_bytes c, n' with
              | 3%nat, O => high_surrogate c r
              | 3%nat, S n'' => String c (take_units n'' 3 r)
              | k, _ => String c (take_units n' k r)
              end
          end
      end
  end.

Definition string_take (n : nat) (s : string) : string := take_units n 0 s.

(** [error instanceof Error ? error.message : String(error)]; everything
    thrown in this model is an [Error] object. *)
Fixpoint message_of (e : Exn) : string :=
  match e with
  | Error m => m
  | SystemError syscall code p => code +:+ ": " +:+ syscall +:+ " '" +:+ p +:+ "'"
  | SqliteError m => m
  | SuppressedError d _ => message_of d
  end.

Definition formatArticle (a : Article) : string :=
  "## " +:+ show (article_title a) +:+ nl +:+
  "  - URL: " +:+ show (article_link a) +:+ nl +:+
  "  - Published: " +:+ show (article_pubDate a) +:+ nl +:+
  "  - Snippet: " +:+ article_snippet a +:+ nl.

(** The handler of [qiita-feed]; [parseURL] is the network: the items of
    the feed at a URL, or the error of the request. *)
Definition qiita_feed (parseURL : string -> Outcome (list FeedItem))
    (topic : option string) : M Response :=
  try_catch
    (let feedUrl :=
       match topic with
       | None | Some EmptyString => "https://qiita.com/popular-items/feed.atom"
       | Some t => "https://qiita.com/tags/" +:+ encodeURIComponent t +:+ "/feed"
       end in
     let* feed_items := lift_outcome (parseURL feedUrl) in
     let limit := 100%nat in
     let items :=
       map (fun item =>
              {| article_title := item_title item;
                 article_link := item_link item;
                 article_pubDate := item_pubDate item;
                 article_snippet :=
                   default "" (string_take 300 <$> item_contentSnippet item) |})
           (take limit feed_items) in
     let formattedArticles := join nl (map formatArticle items) in
     ret {| text := or_else formattedArticles "No articles found from Qiita.";
            result := or_else formattedArticles "No articles found from Qiita." |})
    (fun error =>
       let errorMessage :=
         "Error fetching articles from Qiita: " +:+ message_of error in
       ret {| text := errorMessage; result := errorMessage |}).

End Server.

(** * Definitions used in the statements *)

(** ** Parts of the handler, by name *)

Definition tempPathAt (h : Host) (t : Z) : string :=
  path_join h (tmpdir h) (tempName t).

(** The handle that [copyHistoryFile] returns at the clock reading [t], and
    the world it leaves after copying [data]. *)
Definition handle_at (h : Host) (t : Z) : TempCopy :=
  {| path := tempPathAt h t; dispose_temp := dispose_copy h (tempPathAt h t) |}.

Definition world_after_copy (h : Host) (data : FileData) (w : World) : World :=
  {| files := <[tempPathAt h (now w) := data]> (files w);
     now := now (tick w); later := later (tick w);
     console :=
       LogText ("Copied history DB to temporary path: " +:+ tempPathAt h (now w))
       :: console w |}.

(** Lines 101-156: the part of the handler that runs while the copy
    exists. *)
Definition query_block (h : Host) (limit : option Q) (tempPath : TempCopy)
  : M Response :=
  using_ (openSqlite h (path tempPath)) (fun dbHadnle =>
    let* t := Date_now in
    let startOfToday := JsDate.setHours0 (timezone h) t in
    let* rows :=
      Sqlite.prepare_all h (db dbHadnle)
        (chromeTimeStart_of startOfToday) (limit_or_10 limit) in
    let results := map (toEntry h) rows in
    console_log (LogResults results) ;;;
    let formattedHistory := join nl (map formatEntry results) in
    ret {| text := or_else formattedHistory "No browsing history found.";
           result := or_else formattedHistory "No browsing history found." |}).

(** The response built from the rows of the query (lines 129-156). *)
Definition response_of (h : Host) (rows : list UrlRow) : Response :=
  let formattedHistory := join nl (map formatEntry (map (toEntry h) rows)) in
  {| text := or_else formattedHistory "No browsing history found.";
     result := or_else formattedHistory "No browsing history found." |}.

(** The entries the last run printed with [console.log(results)]. *)
Fixpoint logged_results (log : list LogEntry) : option (list Entry) :=
  match log with
  | [] => None
  | LogResults results :: _ => Some results
  | LogText _ :: rest => logged_results rest
  end.

Definition keeps_files {A} (m : M A) : Prop :=
  forall w, files (snd (m w)) = files w.

(** ** Predicates of the claims *)

(** Every two neighbours of the sequence are in descending order of visit
    time. *)
Definition descending (rows : list UrlRow) : Prop :=
  forall (i : nat) (a b : UrlRow),
    rows !! i = Some a -> rows !! S i = Some b ->
    last_visit_time a >= last_visit_time b.

Definition absent_or_zero (limit : option Q) : Prop :=
  match limit with
  | None => True
  | Some q => (q == 0)%Q
  end.

(** ** File names and what [path.join] puts in front of them *)

Fixpoint string_forall (p : ascii -> bool) (s : string) : bool :=
  match s with
  | EmptyString => true
  | String c r => p c && string_forall p r
  end.

(** A character that is neither a separator of paths nor the colon of a
    drive letter. *)
Definition plain_char (c : ascii) : bool :=
  negb (Path.is_win_sep c) && negb (bool_decide (c = ":"%char)).

(** A file name in the proper sense: made of plain characters, and none of
    [""], ["."] and [".."]. *)
Definition plain (s : string) : Prop :=
  string_forall plain_char s = true /\ s <> "" /\ s <> "." /\ s <> "..".

(** What [join] puts in front of the last element. *)
Definition join_prefix (sep : string) (ys : list string) : string :=
  fold_right (fun y acc => y +:+ sep +:+ acc) "" ys.

Definition posix_prefix (d : string) : string :=
  match d with
  | EmptyString => ""
  | _ =>
      (if Path.is_some_and Path.is_slash (first_char d) then "/" else "") +:+
      join_prefix "/"
        (Path.normalize_segments
           (negb (Path.is_some_and Path.is_slash (first_char d))) []
           (split Path.is_slash d))
  end.

Definition win32_prefix (d : string) : string :=
  match d with
  | EmptyString => ""
  | _ =>
      let r := snd (Path.split_device d) +:+ String backslash "" in
      fst (Path.split_device d) +:+
      (if Path.is_some_and Path.is_win_sep (first_char r)
       then String backslash "" else "") +:+
      join_prefix (String backslash "")
        (Path.normalize_segments
           (negb (Path.is_some_and Path.is_win_sep (first_char r))) []
           (split Path.is_win_sep (snd (Path.split_device d))))
  end.

Definition path_prefix (h : Host) (d : string) : string :=
  if bool_decide (platform h = "win32") then win32_prefix d else posix_prefix d.

(** * Concrete hosts and worlds *)

Definition jst : Z := 9 * 3600000.

(** Japan Standard Time: one offset, no transitions. *)
Definition tokyo : JsDate.TimeZone :=
  {| JsDate.first_offset := jst; JsDate.transitions := [] |}.

(** US Eastern time around the end of daylight saving time in 2024: four
    hours behind UTC until 2024-11-03T06:00:00Z, five hours from then on. *)
Definition new_york_2024 : JsDate.TimeZone :=
  {| JsDate.first_offset := -4 * 3600000;
     JsDate.transitions := [(1730613600000, -5 * 3600000)] |}.

(** A SQLite that returns rows of equal visit time in one fixed order. *)
Definition no_rank (row : UrlRow) : Z := 0.

(** A Linux guest of the Windows Subsystem for Linux. *)
Definition wsl_host : Host :=
  {| platform := "linux";
     os_release := "5.15.153.1-microsoft-standard-WSL2";
     proc_version :=
       Some "Linux version 5.15.153.1-microsoft-standard-WSL2 (gcc 11.2.0)";
     homedir := "/home/alice";
     tmpdir := "/tmp";
     timezone := tokyo;
     tie_rank := no_rank;
     cmd_exe_username := Some ("Alice" +:+ String (ascii_of_nat 13) nl);
     faults := no_faults |}.

Definition linux_host (f : Faults) : Host :=
  {| platform := "linux";
     os_release := "6.8.0-45-generic";
     proc_version := Some "Linux version 6.8.0-45-generic (gcc 13.2.0)";
     homedir := "/home/alice";
     tmpdir := "/tmp";
     timezone := tokyo;
     tie_rank := no_rank;
     cmd_exe_username := None;
     faults := f |}.

(** The same Linux host in New York. *)
Definition new_york_host : Host :=
  {| platform := "linux";
     os_release := "6.8.0-45-generic";
     proc_version := Some "Linux version 6.8.0-45-generic (gcc 13.2.0)";
     homedir := "/home/alice";
     tmpdir := "/tmp";
     timezone := new_york_2024;
     tie_rank := no_rank;
     cmd_exe_username := None;
     faults := no_faults |}.

Definition freebsd_host : Host :=
  {| platform := "freebsd"; os_release := "14.1-RELEASE"; proc_version := None;
     homedir := "/home/alice"; tmpdir := "/tmp"; timezone := tokyo;
     tie_rank := no_rank;
     cmd_exe_username := None; faults := no_faults |}.

Definition linux_history : string :=
  "/home/alice/.config/google-chrome/Default/History".

Definition windows_host (f : Faults) : Host :=
  {| platform := "win32";
     os_release := "10.0.22631";
     proc_version := None;
     homedir := "C:\Users\bob";
     tmpdir := "C:\Users\bob\AppData\Local\Temp";
     timezone := tokyo;
     tie_rank := no_rank;
     cmd_exe_username := Some ("bob" +:+ String (ascii_of_nat 13) nl);
     faults := f |}.

Definition windows_history : string :=
  "C:\Users\bob\AppData\Local\Google\Chrome\User Data\Default\History".

Definition windows_temp : string :=
  "C:\Users\bob\AppData\Local\Temp\chrome_history_copy_1705277103000.sqlite".

(** 2024-01-15 09:05:03 in Tokyo, as Unix milliseconds, and the start of
    that day as WebKit microseconds. *)
Definition mon_morning : Z := 1705277103000.
Definition mon_midnight_raw : Z := 13349718000000000.

Definition row (t : string) (u : string) (raw : Z) : UrlRow :=
  {| title := Some t; url := u; last_visit_time := raw |}.

(** Three visits of that Monday and one of the Sunday before. *)
Definition four_rows : list UrlRow :=
  [ row "B" "https://b.example/" (mon_midnight_raw + 2000000);
    {| title := None; url := "https://y.example/";
       last_visit_time := mon_midnight_raw - 5000000 |};
    row "A" "https://a.example/" (mon_midnight_raw + 3000000);
    row "" "https://c.example/" (mon_midnight_raw + 1000000) ].

(** Eleven visits of that Monday. *)
Definition eleven_rows : list UrlRow :=
  map (fun i : nat => row "T" "https://t.example/" (mon_midnight_raw + 1 + Z.of_nat i))
      (seq 0 11).

Definition world_with (src : string) (urls : list UrlRow) (t : Z) (ts : list Z)
  : World :=
  {| files := {[ src := HistoryDb urls ]}; now := t; later := ts; console := [] |}.

Definition empty_world (t : Z) : World :=
  {| files := ∅; now := t; later := []; console := [] |}.

Definition opaque_world (t : Z) : World :=
  {| files := {[ linux_history := Opaque ]}; now := t; later := [];
     console := [] |}.

Definition ebusy_faults : Faults :=
  {| copy_fault := None; unlink_fault := Some "EBUSY"; open_fault := None;
     close_fault := None; query_fault := None |}.

Definition eio_faults : Faults :=
  {| copy_fault := Some (CopyFailsAfterOpen "EIO" false); unlink_fault := None;
     open_fault := None; close_fault := None; query_fault := None |}.

Definition enospc_faults : Faults :=
  {| copy_fault := Some (CopyFailsAfterOpen "ENOSPC" true); unlink_fault := None;
     open_fault := None; close_fault := None; query_fault := None |}.

Definition enoent_open_faults : Faults :=
  {| copy_fault := None; unlink_fault := None;
     open_fault := Some "unable to open database file";
     close_fault := None; query_fault := None |}.

Definition before_open_faults : Faults :=
  {| copy_fault := Some (CopyFailsBeforeOpen "EACCES"); unlink_fault := None;
     open_fault := None; close_fault := None; query_fault := None |}.

Definition copied_handle : TempCopy :=
  {| path := "/tmp/chrome_history_copy_1705277103000.sqlite";
     dispose_temp :=
       dispose_copy (linux_host no_faults)
         "/tmp/chrome_history_copy_1705277103000.sqlite" |}.

Definition copied_world : World :=
  {| files :=
       <["/tmp/chrome_history_copy_1705277103000.sqlite" := HistoryDb four_rows]>
         {[ linux_history := HistoryDb four_rows ]};
     now := mon_morning; later := [];
     console :=
       [LogText "Copied history DB to temporary path: /tmp/chrome_history_copy_1705277103000.sqlite"] |}.

(** * Definitions used in the further properties *)

(** The start of the local day as the handler computes it in a run from
    the world [w], in WebKit microseconds: the clock is read once for the
    name of the copy and once more for [new Date()]. *)
Definition today (h : Host) (w : World) : option Q :=
  chromeTimeStart_of (JsDate.setHours0 (timezone h) (now (tick w))).

(** An integer limit, or none, as the argument of the handler. *)
Definition limit_of (limit : option Z) : option Q := inject_Z <$> limit.

(** The integer limits that the LIMIT of SQLite accepts. *)
Definition within_int64 (limit : option Z) : Prop :=
  match limit with
  | None => True
  | Some z => - 2 ^ 63 < z < 2 ^ 63
  end.

(** Nothing but white space. *)
Definition blank (s : string) : Prop := string_forall Ascii.is_space s = true.

(** No white space at this end of a string. *)
Definition no_space_at (end_char : option ascii) : Prop :=
  Path.is_some_and Ascii.is_space end_char = false.

(** At this end of a string there is nothing, or an ASCII character that
    is no white space. *)
Definition plain_end (end_char : option ascii) : Prop :=
  Path.is_some_and
    (fun c => Ascii.is_space c || (128 <=? nat_of_ascii c)%nat) end_char
  = false.

(** ** More of [src/mcp/server.ts]: the [zenn-feed] and
    [grounding-search-gemini] tools *)

Module Zenn.
Import Server.

(** An item of the parsed feed, with the [creator] the tool also shows. *)
Record FeedItem := {
  item_title : option string;
  item_link : option string;
  item_pubDate : option string;
  item_contentSnippet : option string;
  item_creator : option string;
}.

Record Article := {
  article_title : option string;
  article_link : option string;
  article_pubDate : option string;
  article_snippet : string;
  article_creator : option string;
}.

Definition dquote : string := String (ascii_of_nat 34) "".

(** The [feedUrl] of the handler: the general feed when [topic] is falsy
    (absent or empty), the feed of the topic otherwise. *)
Definition feedUrl (topic : option string) : string :=
  match topic with
  | None | Some EmptyString => "https://zenn.dev/feed"
  | Some t => "https://zenn.dev/topics/" +:+ encodeURIComponent t +:+ "/feed"
  end.

Definition formatArticle (a : Article) : string :=
  "## " +:+ show (article_title a) +:+ nl +:+
  "  - URL: " +:+ show (article_link a) +:+ nl +:+
  "  - Published: " +:+ show (article_pubDate a) +:+ nl +:+
  "  - Creator: " +:+ show (article_creator a) +:+ nl +:+
  "  - Snippet: " +:+ article_snippet a +:+ nl.

(** The handler of [zenn-feed]. [limit || 10] with [limit = 100] is 100. *)
Definition zenn_feed (parseURL : string -> Outcome (list FeedItem))
    (topic : option string) : M Response :=
  try_catch
    (let* feed_items := lift_outcome (parseURL (feedUrl topic)) in
     let limit := 100%nat in
     let items :=
       map (fun item =>
              {| article_title := item_title item;
                 article_link := item_link item;
                 article_pubDate := item_pubDate item;
                 article_snippet :=
                   default "" (string_take 300 <$> item_contentSnippet item);
                 article_creator := item_creator item |})
           (take (if (limit =? 0)%nat then 10%nat else limit) feed_items) in
     let formattedArticles := join nl (map formatArticle items) in
     ret {| text :=
              or_else formattedArticles
                ("No articles found for topic: " +:+ show topic);
            result :=
              or_else formattedArticles
                ("No articles found for topic: " +:+ show topic) |})
    (fun error =>
       let errorMessage :=
         "Error fetching articles for topic " +:+ dquote +:+ show topic +:+
         dquote +:+ ": " +:+ message_of error in
       ret {| text := errorMessage; result := errorMessage |}).

End Zenn.

Module Gemini.

(** The handler of [grounding-search-gemini]. [generateContent] is the
    service: for an API key, a model and the contents of a request, the
    [text] of the response, which may be missing, or the error of the
    call. What the handler logs is the label and the results. *)
Definition grounding_search_gemini
    (generateContent : string -> string -> string -> Outcome (option string))
    (apiKey query : string) : M Response :=
  let* response :=
    lift_outcome
      (generateContent apiKey "gemini-2.5-flash"
         ("Search results for query: " +:+ query)) in
  let results := or_else (default "" response) "No results found." in
  console_log (LogText ("Gemini Search Results: " +:+ results)) ;;;
  ret {| text := results; result := results |}.

End Gemini.

(** The [feedUrl] of the [qiita-feed] handler. *)
Definition qiita_feedUrl (topic : option string) : string :=
  match topic with
  | None | Some EmptyString => "https://qiita.com/popular-items/feed.atom"
  | Some t => "https://qiita.com/tags/" +:+ Server.encodeURIComponent t +:+ "/feed"
  end.

(** A character that [encodeURIComponent] lets through or produces. *)
Definition url_safe (c : ascii) : bool :=
  Server.is_unreserved c || bool_decide (c = "%"%char).

(** A feed cut down to what the feed tools read of it: the first hundred
    items, and of each snippet the first three hundred UTF-16 code units. *)
Definition clip_snippet (o : option string) : option string :=
  Server.string_take 300 <$> o.

Definition clip_qiita (items : list Server.FeedItem) : list Server.FeedItem :=
  map (fun i =>
         {| Server.item_title := Server.item_title i;
            Server.item_link := Server.item_link i;
            Server.item_pubDate := Server.item_pubDate i;
            Server.item_contentSnippet := clip_snippet (Server.item_contentSnippet i) |})
      (take 100 items).

Definition clip_zenn (items : list Zenn.FeedItem) : list Zenn.FeedItem :=
  map (fun i =>
         {| Zenn.item_title := Zenn.item_title i;
            Zenn.item_link := Zenn.item_link i;
            Zenn.item_pubDate := Zenn.item_pubDate i;
            Zenn.item_contentSnippet := clip_snippet (Zenn.item_contentSnippet i);
            Zenn.item_creator := Zenn.item_creator i |})
      (take 100 items).

Definition clipped {A} (clip : list A -> list A) (o : Outcome (list A))
  : Outcome (list A) :=
  match o with
  | Return items => Return (clip items)
  | Throw e => Throw e
  end.

(** Worlds and values of the examples. *)
Definition disposed_world : World :=
  {| files := delete (path copied_handle) (files copied_world);
     now := mon_morning; later := [];
     console :=
       LogText "Deleted temporary history DB copy: /tmp/chrome_history_copy_1705277103000.sqlite"
       :: console copied_world |}.

Definition first_response : Response :=
  match fst (chrome_hist_tool (linux_host no_faults) None
               (world_with linux_history four_rows mon_morning [])) with
  | Return r => r
  | Throw _ => {| text := ""; result := "" |}
  end.

(** * Properties *)

(** ** The [path.join] model on the paths of the tool *)

Example posix_join_home :
  Path.posix_join "/home/alice" ".config/google-chrome/Default/History"
  = "/home/alice/.config/google-chrome/Default/History".
Proof. reflexivity. Qed.

Example posix_join_normalizes :
  Path.posix_join "/tmp/" "a/../b//c" = "/tmp/b/c".
Proof. reflexivity. Qed.

Example win32_join_home :
  Path.win32_join "C:\Users\bob" "AppData\Local\Google\Chrome\User Data\Default\History"
  = "C:\Users\bob\AppData\Local\Google\Chrome\User Data\Default\History".
Proof. reflexivity. Qed.

(** ** The [Date] model *)

Example jaJP_example :
  JsDate.toLocaleString_jaJP tokyo (Some 1705277103000)
  = "2024/1/15 9:05:03".
Proof. vm_compute. reflexivity. Qed.

(** ** Rounding to binary64 *)

Lemma two_pow_pos (e : Z) : (0 < 2 ^ e)%Q.
Proof. apply Qpower_0_lt. reflexivity. Qed.

Lemma two_pow_add (a b : Z) : (2 ^ (a + b) == 2 ^ a * 2 ^ b)%Q.
Proof. apply Qpower_plus. discriminate. Qed.

Lemma two_pow_sub (a b : Z) : (2 ^ (a - b) == 2 ^ a / 2 ^ b)%Q.
Proof. apply Qpower_minus. discriminate. Qed.

Lemma two_pow_le (a b : Z) : a <= b -> (2 ^ a <= 2 ^ b)%Q.
Proof. intros H. apply Qpower_le_compat_l; [done|]. discriminate. Qed.

Lemma two_pow_lt (a b : Z) : a < b -> (2 ^ a < 2 ^ b)%Q.
Proof. intros H. apply Qpower_lt_compat_l; [done|]. reflexivity. Qed.

Lemma two_pow_Z (n : Z) : 0 <= n -> (inject_Z (2 ^ n) == 2 ^ n)%Q.
Proof. intros H. apply (Zpower_Qpower 2 n H). Qed.

Lemma Qdiv_lt_cross (a b c d : Q) :
  (0 < b)%Q -> (0 < d)%Q -> (a * d < c * b)%Q -> (a / b < c / d)%Q.
Proof.
  intros Hb Hd H. apply Qlt_shift_div_r; [done|].
  assert (c / d * b == c * b / d)%Q as -> by (field; lra).
  by apply Qlt_shift_div_l.
Qed.

Lemma Qlog2_spec (q : Q) :
  (0 < q)%Q -> (2 ^ Binary64.Qlog2 q <= q)%Q /\ (q < 2 ^ (Binary64.Qlog2 q + 1))%Q.
Proof.
  intros Hq. unfold Binary64.Qlog2.
  destruct q as [n d]. simpl Qnum. simpl Qden.
  assert (0 < n) as Hn. { revert Hq. unfold Qlt. simpl. lia. }
  set (a := Z.log2 n). set (b := Z.log2 (Z.pos d)).
  destruct (Z.log2_spec n Hn) as [Ha1 Ha2]. fold a in Ha1, Ha2.
  destruct (Z.log2_spec (Z.pos d) eq_refl) as [Hb1 Hb2]. fold b in Hb1, Hb2.
  assert (0 <= a) as Ha0 by apply Z.log2_nonneg.
  assert (0 <= b) as Hb0 by apply Z.log2_nonneg.
  assert (n # d == inject_Z n / inject_Z (Z.pos d))%Q as Hnd.
  { rewrite (Qmake_Qdiv n d). reflexivity. }
  assert (0 < inject_Z (Z.pos d))%Q as Hdpos by (unfold Qlt; simpl; lia).
  assert (inject_Z (2 ^ a) <= inject_Z n)%Q as A1 by (rewrite <- Zle_Qle; lia).
  assert (inject_Z n < inject_Z (2 ^ (a + 1)))%Q as A2
    by (rewrite <- Zlt_Qlt; replace (a + 1) with (Z.succ a) by lia; lia).
  assert (inject_Z (2 ^ b) <= inject_Z (Z.pos d))%Q as B1 by (rewrite <- Zle_Qle; lia).
  assert (inject_Z (Z.pos d) < inject_Z (2 ^ (b + 1)))%Q as B2
    by (rewrite <- Zlt_Qlt; replace (b + 1) with (Z.succ b) by lia; lia).
  rewrite !two_pow_Z in A1, A2, B1, B2 by lia.
  pose proof (two_pow_pos a). pose proof (two_pow_pos b).
  pose proof (two_pow_pos (a + 1)). pose proof (two_pow_pos (b + 1)).
  assert (2 ^ (a - b - 1) < n # d)%Q as L.
  { rewrite Hnd. replace (a - b - 1) with (a - (b + 1)) by lia.
    rewrite two_pow_sub. apply Qdiv_lt_cross; [done..|]. nra. }
  assert (n # d < 2 ^ (a - b + 1))%Q as U.
  { rewrite Hnd. replace (a - b + 1) with (a + 1 - b) by lia.
    rewrite two_pow_sub. apply Qdiv_lt_cross; [done..|]. nra. }
  destruct (Qle_bool (2 ^ (a - b)) (n # d)) eqn:E.
  - apply Qle_bool_iff in E. split; done.
  - split; [by apply Qlt_le_weak|].
    replace (a - b - 1 + 1) with (a - b) by lia.
    apply Qnot_le_lt. intros C. apply Qle_bool_iff in C. congruence.
Qed.

Lemma two_pow_lt_inv (a b : Z) : (2 ^ a < 2 ^ b)%Q -> a < b.
Proof. intros H. by apply (Qpower_lt_compat_l_inv 2 a b H). Qed.

Lemma two_pow_le_inv (a b : Z) : (2 ^ a <= 2 ^ b)%Q -> a <= b.
Proof. intros H. by apply (Qpower_le_compat_l_inv 2 a b H). Qed.

Lemma Qlog2_lt (q : Q) (K : Z) : (0 < q)%Q -> (q < 2 ^ K)%Q -> Binary64.Qlog2 q < K.
Proof.
  intros Hq H. destruct (Qlog2_spec q Hq) as [L _].
  apply two_pow_lt_inv. by apply Qle_lt_trans with q.
Qed.

Lemma Qlog2_ge (q : Q) (K : Z) : (2 ^ K <= q)%Q -> K <= Binary64.Qlog2 q.
Proof.
  intros H.
  assert (0 < q)%Q as Hq by (pose proof (two_pow_pos K); lra).
  destruct (Qlog2_spec q Hq) as [_ U].
  assert (K < Binary64.Qlog2 q + 1); [|lia].
  apply two_pow_lt_inv. by apply Qle_lt_trans with q.
Qed.

Lemma Qabs_pos_lt (q : Q) : ~ (q == 0)%Q -> (0 < Qabs q)%Q.
Proof.
  intros Hq. destruct (Q_dec q 0) as [[H|H]|H]; [| |done].
  - rewrite Qabs_neg by lra. lra.
  - rewrite Qabs_pos by lra. lra.
Qed.

Lemma Qlog2_comp (p q : Q) :
  (0 < p)%Q -> (p == q)%Q -> Binary64.Qlog2 p = Binary64.Qlog2 q.
Proof.
  intros Hp E.
  assert (0 < q)%Q as Hq by (by rewrite <- E).
  destruct (Qlog2_spec p Hp) as [L1' U1']. destruct (Qlog2_spec q Hq) as [L2 U2].
  assert (2 ^ Binary64.Qlog2 p <= q)%Q as L1 by (by rewrite <- E).
  assert (q < 2 ^ (Binary64.Qlog2 p + 1))%Q as U1 by (by rewrite <- E).
  assert (Binary64.Qlog2 p < Binary64.Qlog2 q + 1)
    by (apply two_pow_lt_inv; by apply Qle_lt_trans with q).
  assert (Binary64.Qlog2 q < Binary64.Qlog2 p + 1)
    by (apply two_pow_lt_inv; by apply Qle_lt_trans with q).
  lia.
Qed.

Lemma round_half_even_comp (p q : Q) :
  (p == q)%Q -> Binary64.round_half_even p = Binary64.round_half_even q.
Proof.
  intros E. unfold Binary64.round_half_even.
  rewrite (Qfloor_comp _ _ E).
  assert (p - inject_Z (Qfloor q) == q - inject_Z (Qfloor q))%Q as E'
    by (rewrite E; reflexivity).
  assert ((p - inject_Z (Qfloor q) ?= 1 # 2)%Q
          = (q - inject_Z (Qfloor q) ?= 1 # 2)%Q) as ->; [|done].
  apply Qcompare_comp; [exact E'|reflexivity].
Qed.

Lemma round_half_even_inject_Z (z : Z) : Binary64.round_half_even (inject_Z z) = z.
Proof.
  unfold Binary64.round_half_even. rewrite Qfloor_Z.
  assert ((inject_Z z - inject_Z z ?= 1 # 2)%Q = Lt) as ->; [|done].
  apply (proj1 (Qlt_alt _ _)). lra.
Qed.

Lemma round_half_even_error (q : Q) :
  (Qabs (inject_Z (Binary64.round_half_even q) - q) <= 1 # 2)%Q.
Proof.
  unfold Binary64.round_half_even.
  pose proof (Qfloor_le q) as L. pose proof (Qlt_floor q) as U.
  rewrite inject_Z_plus in U. change (inject_Z 1) with 1%Q in U.
  apply Qabs_Qle_condition.
  destruct (q - inject_Z (Qfloor q) ?= 1 # 2)%Q eqn:E.
  - apply (proj2 (Qeq_alt _ _)) in E. destruct (Z.even (Qfloor q));
      rewrite ?inject_Z_plus; change (inject_Z 1) with 1%Q; split; lra.
  - apply (proj2 (Qlt_alt _ _)) in E. split; lra.
  - apply (proj2 (Qgt_alt _ _)) in E. rewrite inject_Z_plus.
    change (inject_Z 1) with 1%Q. split; lra.
Qed.

Lemma Qabs_mult_pow (m e : Z) :
  (Qabs (inject_Z m * 2 ^ e) == inject_Z (Z.abs m) * 2 ^ e)%Q.
Proof.
  rewrite Qabs_Qmult. rewrite (Qabs_pos (2 ^ e)%Q)
    by (apply Qlt_le_weak, two_pow_pos).
  unfold Qabs, inject_Z. simpl. reflexivity.
Qed.

Lemma ulp_exp_le (q : Q) (m e : Z) :
  Z.abs m <= 2 ^ 53 -> -1074 <= e -> ~ (q == 0)%Q ->
  (q == inject_Z m * 2 ^ e)%Q ->
  Binary64.ulp_exp q <= e \/ (Z.abs m = 2 ^ 53 /\ Binary64.ulp_exp q = e + 1).
Proof.
  intros Hm He Hq0 E. unfold Binary64.ulp_exp.
  assert (0 < Qabs q)%Q as Hpos by (by apply Qabs_pos_lt).
  assert (Qabs q == inject_Z (Z.abs m) * 2 ^ e)%Q as Eabs.
  { rewrite E. apply Qabs_mult_pow. }
  pose proof (two_pow_pos e) as He0.
  destruct (decide (Z.abs m = 2 ^ 53)) as [Hmax|Hlt].
  - right. split; [done|].
    assert (Binary64.Qlog2 (Qabs q) = 53 + e) as ->; [|lia].
    assert (Qabs q == 2 ^ (53 + e))%Q as Eq.
    { rewrite Eabs, Hmax, two_pow_add, two_pow_Z by lia. reflexivity. }
    assert (53 + e <= Binary64.Qlog2 (Qabs q))
      by (apply Qlog2_ge; rewrite Eq; apply Qle_refl).
    assert (Binary64.Qlog2 (Qabs q) < 53 + e + 1); [|lia].
    apply Qlog2_lt; [done|]. rewrite Eq. apply two_pow_lt. lia.
  - left.
    assert (Binary64.Qlog2 (Qabs q) < 53 + e); [|lia].
    apply Qlog2_lt; [done|]. rewrite Eabs, two_pow_add.
    apply Qmult_lt_compat_r; [done|].
    rewrite <- two_pow_Z by lia. rewrite <- Zlt_Qlt. lia.
Qed.

Lemma two_pow_nonneg_Z (n : Z) : 0 <= n -> exists k : Z, (2 ^ n == inject_Z k)%Q.
Proof. intros H. exists (2 ^ n). by rewrite two_pow_Z. Qed.

#[global] Instance round_comp : Proper (Qeq ==> Qeq) Binary64.round.
Proof.
  intros p q E. unfold Binary64.round.
  destruct (Qeq_bool p 0) eqn:Ep, (Qeq_bool q 0) eqn:Eq; [reflexivity| | |].
  - apply Qeq_bool_eq in Ep. apply Qeq_bool_neq in Eq. destruct Eq.
    by rewrite <- E.
  - apply Qeq_bool_neq in Ep. apply Qeq_bool_eq in Eq. destruct Ep.
    by rewrite E.
  - apply Qeq_bool_neq in Ep.
    assert (Binary64.ulp_exp p = Binary64.ulp_exp q) as <-.
    { unfold Binary64.ulp_exp. f_equal. f_equal.
      apply Qlog2_comp; [by apply Qabs_pos_lt|by rewrite E]. }
    generalize (Binary64.ulp_exp p). intros u.
    assert (p / 2 ^ u == q / 2 ^ u)%Q as E' by (by rewrite E).
    by rewrite (round_half_even_comp _ _ E').
Qed.

#[global] Instance chromeTimeStart_comp : Proper (Qeq ==> Qeq) chromeTimeStart.
Proof.
  intros p q E. unfold chromeTimeStart, Binary64.mul, Binary64.add. by rewrite E.
Qed.

#[global] Instance visitTimeMs_comp : Proper (Qeq ==> Qeq) visitTimeMs.
Proof.
  intros p q E. unfold visitTimeMs, Binary64.sub, Binary64.div. by rewrite E.
Qed.

(** Rounding leaves the numbers of binary64 as they are. *)
Lemma round_exact (q : Q) : representable q -> (Binary64.round q == q)%Q.
Proof.
  intros (m & e & Hm & He & E). unfold Binary64.round.
  destruct (Qeq_bool q 0) eqn:E0.
  { apply Qeq_bool_eq in E0. by rewrite E0. }
  apply Qeq_bool_neq in E0.
  set (u := Binary64.ulp_exp q).
  pose proof (two_pow_pos u) as Hu. pose proof (two_pow_pos e) as He0.
  assert (exists k : Z, (q / 2 ^ u == inject_Z k)%Q) as [k Hk].
  { destruct (ulp_exp_le q m e Hm He E0 E) as [Hle|[Hmax Hu1]];
      fold u in Hle || fold u in Hu1.
    - exists (m * 2 ^ (e - u)).
      rewrite inject_Z_mult, two_pow_Z by lia.
      rewrite E, two_pow_sub. field; repeat split; lra.
    - assert (m = 2 * (m / 2)) as Hm2.
      { assert (m = 2 ^ 53 \/ m = - 2 ^ 53) as [->| ->] by lia; reflexivity. }
      exists (m / 2). rewrite E, Hu1, two_pow_add.
      rewrite Hm2 at 1. rewrite inject_Z_mult.
      change (2 ^ 1)%Q with 2%Q. field; repeat split; lra. }
  rewrite (round_half_even_comp _ _ Hk), round_half_even_inject_Z.
  rewrite <- Hk. field; lra.
Qed.

Lemma representable_inject_Z (z : Z) :
  Z.abs z <= 2 ^ 53 -> representable (inject_Z z).
Proof. intros H. exists z, 0. repeat split; [done|lia|]. change (2 ^ 0)%Q with 1%Q. ring. Qed.

Lemma representable_scaled (m k : Z) :
  Z.abs m <= 2 ^ 53 -> 0 <= k -> representable (inject_Z (m * 2 ^ k)).
Proof.
  intros H Hk. exists m, k. repeat split; [done|lia|].
  by rewrite inject_Z_mult, two_pow_Z.
Qed.

Lemma round_half_even_ge (x : Q) (k : Z) :
  (inject_Z k <= x)%Q -> k <= Binary64.round_half_even x.
Proof.
  intros H. unfold Binary64.round_half_even.
  assert (k <= Qfloor x) as Hf.
  { rewrite <- (Qfloor_Z k). by apply Qfloor_resp_le. }
  destruct (x - inject_Z (Qfloor x) ?= 1 # 2)%Q; [|lia..].
  destruct (Z.even (Qfloor x)); lia.
Qed.

Lemma round_half_even_le (x : Q) (k : Z) :
  (x <= inject_Z k)%Q -> Binary64.round_half_even x <= k.
Proof.
  intros H. unfold Binary64.round_half_even.
  pose proof (Qfloor_le x) as L.
  assert (Qfloor x <= k) as Hf.
  { rewrite <- (Qfloor_Z k). by apply Qfloor_resp_le. }
  assert ((inject_Z (Qfloor x) < x)%Q -> Qfloor x + 1 <= k) as Hlt.
  { intros Hx. assert (inject_Z (Qfloor x) < inject_Z k)%Q as C by lra.
    rewrite <- Zlt_Qlt in C. lia. }
  destruct (x - inject_Z (Qfloor x) ?= 1 # 2)%Q eqn:E.
  - apply (proj2 (Qeq_alt _ _)) in E.
    destruct (Z.even (Qfloor x)); [lia|]. apply Hlt. lra.
  - lia.
  - apply (proj2 (Qgt_alt _ _)) in E. apply Hlt. lra.
Qed.

(** The value of [round] on the grid of its argument. *)
Lemma round_unfold (q : Q) :
  ~ (q == 0)%Q ->
  (Binary64.round q
   == inject_Z (Binary64.round_half_even (q / 2 ^ Binary64.ulp_exp q))
      * 2 ^ Binary64.ulp_exp q)%Q.
Proof.
  intros H. unfold Binary64.round.
  destruct (Qeq_bool q 0) eqn:E; [|reflexivity].
  apply Qeq_bool_eq in E. done.
Qed.

Lemma round_0 (q : Q) : (q == 0)%Q -> (Binary64.round q == 0)%Q.
Proof.
  intros H. unfold Binary64.round.
  destruct (Qeq_bool q 0) eqn:E; [reflexivity|].
  apply Qeq_bool_neq in E. done.
Qed.

(** A number [y] of binary64 lies on the grid of [q], or is of smaller
    magnitude than the power of two at the start of the binade of [q]. *)
Lemma representable_on_grid (y q : Q) :
  representable y -> ~ (q == 0)%Q ->
  (exists k : Z, (y == inject_Z k * 2 ^ Binary64.ulp_exp q)%Q) \/
  ((Qabs y <= 2 ^ (Binary64.ulp_exp q + 52))%Q /\
   (2 ^ (Binary64.ulp_exp q + 52) <= Qabs q)%Q).
Proof.
  intros (m & ey & Hm & Hey & Ey) Hq.
  set (e := Binary64.ulp_exp q).
  destruct (Z.le_gt_cases e ey) as [Hle|Hgt].
  - left. exists (m * 2 ^ (ey - e)).
    rewrite Ey, inject_Z_mult, two_pow_Z by lia.
    rewrite two_pow_sub. pose proof (two_pow_pos e). field. lra.
  - right.
    assert (e = Binary64.Qlog2 (Qabs q) - 52) as He
      by (subst e; unfold Binary64.ulp_exp in *; lia).
    split.
    + rewrite Ey, Qabs_mult_pow.
      apply Qle_trans with (2 ^ 53 * 2 ^ ey)%Q.
      * apply Qmult_le_compat_r; [|apply Qlt_le_weak, two_pow_pos].
        rewrite <- (two_pow_Z 53) by lia. rewrite <- Zle_Qle. lia.
      * rewrite <- two_pow_add. apply two_pow_le. lia.
    + replace (e + 52) with (Binary64.Qlog2 (Qabs q)) by lia.
      apply Qlog2_spec. by apply Qabs_pos_lt.
Qed.

Lemma round_ge (y q : Q) :
  representable y -> (y <= q)%Q -> (y <= Binary64.round q)%Q.
Proof.
  intros Hy Hq.
  destruct (Qeq_dec q 0) as [E0|E0].
  { rewrite (round_0 q E0). lra. }
  rewrite (round_unfold q E0).
  set (e := Binary64.ulp_exp q). pose proof (two_pow_pos e) as He.
  destruct (representable_on_grid y q Hy E0) as [[k Hk]|[Hsmall Hbig]];
    fold e in Hk || fold e in Hsmall, Hbig.
  - rewrite Hk. apply Qmult_le_compat_r; [|lra].
    rewrite <- Zle_Qle. apply round_half_even_ge.
    apply Qle_shift_div_l; [done|]. by rewrite <- Hk.
  - destruct (Qlt_le_dec q 0) as [Hneg|Hpos].
    + rewrite (Qabs_neg q) in Hbig by lra.
      assert (- y <= Qabs y)%Q as Hay
        by (rewrite <- Qabs_opp; apply Qle_Qabs).
      assert (q == inject_Z (- 2 ^ 52) * 2 ^ e)%Q as Eq.
      { rewrite inject_Z_opp, two_pow_Z by lia.
        rewrite two_pow_add in Hsmall, Hbig.
        assert (2 ^ 52 * 2 ^ e == 2 ^ e * 2 ^ 52)%Q as C by ring.
        lra. }
      assert (q / 2 ^ e == inject_Z (- 2 ^ 52))%Q as Ediv
        by (rewrite Eq; field; lra).
      rewrite (round_half_even_comp _ _ Ediv), round_half_even_inject_Z.
      rewrite <- Eq. done.
    + rewrite (Qabs_pos q) in Hbig by done.
      apply Qle_trans with (2 ^ (e + 52))%Q.
      { apply Qle_trans with (Qabs y); [apply Qle_Qabs|done]. }
      rewrite (Z.add_comm e 52), two_pow_add.
      apply Qmult_le_compat_r; [|lra].
      rewrite <- (two_pow_Z 52) by lia. rewrite <- Zle_Qle.
      apply round_half_even_ge. rewrite two_pow_Z by lia.
      apply Qle_shift_div_l; [done|].
      by rewrite <- two_pow_add, (Z.add_comm 52 e).
Qed.

Lemma round_le (y q : Q) :
  representable y -> (q <= y)%Q -> (Binary64.round q <= y)%Q.
Proof.
  intros Hy Hq.
  destruct (Qeq_dec q 0) as [E0|E0].
  { rewrite (round_0 q E0). lra. }
  rewrite (round_unfold q E0).
  set (e := Binary64.ulp_exp q). pose proof (two_pow_pos e) as He.
  destruct (representable_on_grid y q Hy E0) as [[k Hk]|[Hsmall Hbig]];
    fold e in Hk || fold e in Hsmall, Hbig.
  - rewrite Hk. apply Qmult_le_compat_r; [|lra].
    rewrite <- Zle_Qle. apply round_half_even_le.
    apply Qle_shift_div_r; [done|]. by rewrite <- Hk.
  - destruct (Qlt_le_dec 0 q) as [Hpos|Hneg].
    + rewrite (Qabs_pos q) in Hbig by lra.
      pose proof (Qle_Qabs y) as Hay.
      assert (q == inject_Z (2 ^ 52) * 2 ^ e)%Q as Eq.
      { rewrite two_pow_Z by lia.
        rewrite two_pow_add in Hsmall, Hbig.
        assert (2 ^ 52 * 2 ^ e == 2 ^ e * 2 ^ 52)%Q as C by ring.
        lra. }
      assert (q / 2 ^ e == inject_Z (2 ^ 52))%Q as Ediv
        by (rewrite Eq; field; lra).
      rewrite (round_half_even_comp _ _ Ediv), round_half_even_inject_Z.
      rewrite <- Eq. done.
    + rewrite (Qabs_neg q) in Hbig by done.
      assert (- y <= Qabs y)%Q as Hay
        by (rewrite <- Qabs_opp; apply Qle_Qabs).
      apply Qle_trans with (- 2 ^ (e + 52))%Q; [|lra].
      rewrite (Z.add_comm e 52), two_pow_add.
      assert (- (2 ^ 52 * 2 ^ e) == inject_Z (- 2 ^ 52) * 2 ^ e)%Q as ->
        by (rewrite inject_Z_opp, two_pow_Z by lia; ring).
      apply Qmult_le_compat_r; [|lra].
      rewrite <- Zle_Qle.
      apply round_half_even_le. rewrite inject_Z_opp, two_pow_Z by lia.
      apply Qle_shift_div_r; [done|].
      rewrite two_pow_add in Hbig.
      assert (2 ^ 52 * 2 ^ e == 2 ^ e * 2 ^ 52)%Q as C by ring.
      lra.
Qed.

(** ** Timestamps *)

Lemma trunc_inject_Z (z : Z) : JsDate.trunc (inject_Z z) = z.
Proof.
  unfold JsDate.trunc. destruct (Qlt_le_dec (inject_Z z) 0).
  - unfold Qceiling. rewrite <- inject_Z_opp, Qfloor_Z. lia.
  - apply Qfloor_Z.
Qed.

Lemma trunc_comp (p q : Q) : (p == q)%Q -> JsDate.trunc p = JsDate.trunc q.
Proof.
  intros E. unfold JsDate.trunc.
  destruct (Qlt_le_dec p 0) as [H1|H1], (Qlt_le_dec q 0) as [H2|H2].
  - unfold Qceiling. f_equal. apply Qfloor_comp. by rewrite E.
  - exfalso. rewrite E in H1. exact (Qlt_not_le _ _ H1 H2).
  - exfalso. rewrite E in H1. exact (Qlt_not_le _ _ H2 H1).
  - by apply Qfloor_comp.
Qed.

(** As long as [(t + WEBKIT_EPOCH_OFFSET) * 125] stays within [2 ^ 53],
    that is for every [t] before the year 3884, no operation of the two
    conversions rounds: the sum is an integer below [2 ^ 53], the product
    is such an integer times [2 ^ 3], and the quotient and the difference
    are integers below [2 ^ 53] again. *)
Lemma chromeTimeStart_exact (t : Z) :
  Z.abs ((t + WEBKIT_EPOCH_OFFSET) * 125) <= 2 ^ 53 ->
  (chromeTimeStart (inject_Z t) == inject_Z ((t + WEBKIT_EPOCH_OFFSET) * 1000))%Q.
Proof.
  intros Hrange. unfold chromeTimeStart, Binary64.mul, Binary64.add.
  assert (Binary64.round (inject_Z t + inject_Z WEBKIT_EPOCH_OFFSET)
          == inject_Z (t + WEBKIT_EPOCH_OFFSET))%Q as Hsum.
  { rewrite <- inject_Z_plus. apply round_exact, representable_inject_Z. lia. }
  rewrite round_exact.
  - rewrite Hsum, inject_Z_mult. reflexivity.
  - exists ((t + WEBKIT_EPOCH_OFFSET) * 125), 3. split; [done|]. split; [lia|].
    rewrite Hsum, !inject_Z_mult. change (2 ^ 3)%Q with 8%Q.
    change (inject_Z 125) with 125%Q. ring.
Qed.

Lemma visitTimeMs_exact (t : Z) :
  Z.abs t <= 2 ^ 53 -> Z.abs (t + WEBKIT_EPOCH_OFFSET) <= 2 ^ 53 ->
  (visitTimeMs (inject_Z ((t + WEBKIT_EPOCH_OFFSET) * 1000)) == inject_Z t)%Q.
Proof.
  intros Ht Hsum. unfold visitTimeMs, Binary64.sub, Binary64.div.
  assert (Binary64.round (inject_Z ((t + WEBKIT_EPOCH_OFFSET) * 1000) / 1000)
          == inject_Z (t + WEBKIT_EPOCH_OFFSET))%Q as Hquot.
  { assert (inject_Z ((t + WEBKIT_EPOCH_OFFSET) * 1000) / 1000
            == inject_Z (t + WEBKIT_EPOCH_OFFSET))%Q as E.
    { rewrite inject_Z_mult. change (inject_Z 1000) with 1000%Q. field. }
    rewrite round_exact; [exact E|].
    destruct (representable_inject_Z _ Hsum) as (m & e & ? & ? & Hm).
    exists m, e. repeat split; [done..|]. by rewrite E. }
  assert (Binary64.round (inject_Z ((t + WEBKIT_EPOCH_OFFSET) * 1000) / 1000)
          - inject_Z WEBKIT_EPOCH_OFFSET == inject_Z t)%Q as E.
  { rewrite Hquot, inject_Z_plus. ring. }
  rewrite round_exact; [exact E|].
  destruct (representable_inject_Z _ Ht) as (m & e & ? & ? & Hm).
  exists m, e. repeat split; [done..|]. by rewrite E.
Qed.

(** The conversion of line 131 respects the order against the whole
    milliseconds: a stored time at or after the encoding of the
    millisecond [n] is converted to [n] or more, one at or before it to
    [n] or less. *)
Lemma visitTimeMs_ge (n raw : Z) :
  Z.abs ((n + WEBKIT_EPOCH_OFFSET) * 125) <= 2 ^ 53 -> Z.abs n <= 2 ^ 53 ->
  (n + WEBKIT_EPOCH_OFFSET) * 1000 <= raw ->
  (inject_Z n <= visitTimeMs (Binary64.round (inject_Z raw)))%Q.
Proof.
  intros Hrange Hn Hraw.
  unfold visitTimeMs, Binary64.sub, Binary64.div.
  assert (inject_Z ((n + WEBKIT_EPOCH_OFFSET) * 1000)
          <= Binary64.round (inject_Z raw))%Q as H1.
  { apply round_ge; [|by rewrite <- Zle_Qle].
    replace ((n + WEBKIT_EPOCH_OFFSET) * 1000)
      with ((n + WEBKIT_EPOCH_OFFSET) * 125 * 2 ^ 3) by lia.
    by apply representable_scaled. }
  assert (inject_Z (n + WEBKIT_EPOCH_OFFSET)
          <= Binary64.round (Binary64.round (inject_Z raw) / 1000))%Q as H2.
  { apply round_ge; [apply representable_inject_Z; lia|].
    apply Qle_shift_div_l; [reflexivity|].
    rewrite inject_Z_mult in H1. exact H1. }
  apply round_ge; [by apply representable_inject_Z|].
  rewrite inject_Z_plus in H2. lra.
Qed.

Lemma visitTimeMs_le (n raw : Z) :
  Z.abs ((n + WEBKIT_EPOCH_OFFSET) * 125) <= 2 ^ 53 -> Z.abs n <= 2 ^ 53 ->
  raw <= (n + WEBKIT_EPOCH_OFFSET) * 1000 ->
  (visitTimeMs (Binary64.round (inject_Z raw)) <= inject_Z n)%Q.
Proof.
  intros Hrange Hn Hraw.
  unfold visitTimeMs, Binary64.sub, Binary64.div.
  assert (Binary64.round (inject_Z raw)
          <= inject_Z ((n + WEBKIT_EPOCH_OFFSET) * 1000))%Q as H1.
  { apply round_le; [|by rewrite <- Zle_Qle].
    replace ((n + WEBKIT_EPOCH_OFFSET) * 1000)
      with ((n + WEBKIT_EPOCH_OFFSET) * 125 * 2 ^ 3) by lia.
    by apply representable_scaled. }
  assert (Binary64.round (Binary64.round (inject_Z raw) / 1000)
          <= inject_Z (n + WEBKIT_EPOCH_OFFSET))%Q as H2.
  { apply round_le; [apply representable_inject_Z; lia|].
    apply Qle_shift_div_r; [reflexivity|].
    rewrite inject_Z_mult in H1. exact H1. }
  apply round_le; [by apply representable_inject_Z|].
  rewrite inject_Z_plus in H2. lra.
Qed.

Lemma trunc_between (v : Q) (n : Z) :
  (inject_Z n <= v)%Q -> (v <= inject_Z (n + 1))%Q ->
  n <= JsDate.trunc v <= n + 1.
Proof.
  intros L U. unfold JsDate.trunc. destruct (Qlt_le_dec v 0).
  - split.
    + assert (inject_Z n <= inject_Z (Qceiling v))%Q as C
        by (pose proof (Qle_ceiling v); lra).
      by rewrite <- Zle_Qle in C.
    + rewrite <- (Qceiling_Z (n + 1)). by apply Qceiling_resp_le.
  - split.
    + rewrite <- (Qfloor_Z n). by apply Qfloor_resp_le.
    + assert (inject_Z (Qfloor v) <= inject_Z (n + 1))%Q as C
        by (pose proof (Qfloor_le v); lra).
      by rewrite <- Zle_Qle in C.
Qed.

(** An arbitrary stored time [raw], up to the year 3884: the [Date] built
    from it holds a millisecond whose encoding is less than 1000
    microseconds away from [raw]. *)
Lemma stored_time_within_a_millisecond (raw : Z) :
  Z.abs raw + 1000 <= 2 ^ 56 ->
  exists d,
    JsDate.of_number (visitTimeMs (Binary64.round (inject_Z raw))) = Some d /\
    (chromeTimeStart (inject_Z d) == inject_Z ((d + WEBKIT_EPOCH_OFFSET) * 1000))%Q /\
    Z.abs (raw - (d + WEBKIT_EPOCH_OFFSET) * 1000) < 1000.
Proof.
  intros Hrange.
  set (v := visitTimeMs (Binary64.round (inject_Z raw))).
  set (n := raw / 1000 - WEBKIT_EPOCH_OFFSET).
  assert (WEBKIT_EPOCH_OFFSET = 11644473600000) as HO by reflexivity.
  pose proof (Z.div_mod raw 1000 ltac:(lia)) as Hdm.
  pose proof (Z.mod_pos_bound raw 1000 ltac:(lia)) as Hmod.
  assert ((n + WEBKIT_EPOCH_OFFSET) * 1000 <= raw
          < (n + 1 + WEBKIT_EPOCH_OFFSET) * 1000) as Hn by (subst n; lia).
  assert (2 ^ 56 = 72057594037927936) as H56 by reflexivity.
  assert (2 ^ 53 = 9007199254740992) as H53 by reflexivity.
  assert (inject_Z n <= v)%Q as L by (apply visitTimeMs_ge; lia).
  assert (v <= inject_Z (n + 1))%Q as U by (apply visitTimeMs_le; lia).
  pose proof (trunc_between v n L U) as Hd.
  exists (JsDate.trunc v). split; [|split].
  - unfold JsDate.of_number.
    assert (Qle_bool (Qabs v) (inject_Z JsDate.maxTime) = true) as ->; [|done].
    apply Qle_bool_iff, Qabs_Qle_condition.
    assert (- inject_Z JsDate.maxTime <= inject_Z n)%Q
      by (rewrite <- inject_Z_opp, <- Zle_Qle; unfold JsDate.maxTime; lia).
    assert (inject_Z (n + 1) <= inject_Z JsDate.maxTime)%Q
      by (rewrite <- Zle_Qle; unfold JsDate.maxTime; lia).
    split; lra.
  - apply chromeTimeStart_exact. lia.
  - destruct (decide (raw = (n + WEBKIT_EPOCH_OFFSET) * 1000)) as [E|NE].
    + assert (v <= inject_Z n)%Q as U' by (apply visitTimeMs_le; lia).
      assert (v == inject_Z n)%Q as Ev by lra.
      rewrite (trunc_comp _ _ Ev), trunc_inject_Z. lia.
    + lia.
Qed.

(** C1, as stated, fails: the numbers of the source are binary64 numbers,
    and from the year 3884 on the product [(t + 11644473600000) * 1000]
    is rounded. At [t = 60413120437929] the encoding is 8 microseconds
    short, the conversion back gives [t - 1/64], and the [Date] built from
    it holds [t - 1]. *)
Lemma round_trip_fails_in_3884 :
  let t := 60413120437929 in
  0 <= t /\
  ~ (visitTimeMs (chromeTimeStart (inject_Z t)) == inject_Z t)%Q /\
  (chromeTimeStart (inject_Z t)
   == inject_Z ((t + WEBKIT_EPOCH_OFFSET) * 1000) - 8)%Q /\
  (visitTimeMs (chromeTimeStart (inject_Z t)) == inject_Z t - (1 # 64))%Q /\
  JsDate.of_number (visitTimeMs (chromeTimeStart (inject_Z t))) = Some (t - 1).
Proof.
  cbv zeta. split; [lia|]. split.
  - intros H. vm_compute in H. discriminate.
  - repeat split; vm_compute; reflexivity.
Qed.

(** C1, amended. For every non-negative Unix-millisecond value [t] with
    [(t + 11644473600000) * 125 <= 2 ^ 53], that is up to the year 3884,
    the WebKit encoding is computed exactly, the conversion back gives [t]
    again, exactly, and the [Date] built from it holds [t]. For an
    arbitrary microsecond value [raw] of the same range, the millisecond
    that the [Date] built from it holds, encoded again, is less than 1 ms
    (1000 microseconds) away from [raw]. *)
Theorem timestamp_round_trip (t raw : Z) :
  0 <= t ->
  (t + WEBKIT_EPOCH_OFFSET) * 125 <= 2 ^ 53 ->
  Z.abs raw + 1000 <= 2 ^ 56 ->
  (chromeTimeStart (inject_Z t) == inject_Z ((t + WEBKIT_EPOCH_OFFSET) * 1000))%Q /\
  (visitTimeMs (chromeTimeStart (inject_Z t)) == inject_Z t)%Q /\
  JsDate.of_number (visitTimeMs (chromeTimeStart (inject_Z t))) = Some t /\
  exists d,
    JsDate.of_number (visitTimeMs (Binary64.round (inject_Z raw))) = Some d /\
    (chromeTimeStart (inject_Z d) == inject_Z ((d + WEBKIT_EPOCH_OFFSET) * 1000))%Q /\
    Z.abs (raw - (d + WEBKIT_EPOCH_OFFSET) * 1000) < 1000.
Proof.
  intros Ht Hrange Hraw.
  assert (0 < WEBKIT_EPOCH_OFFSET) as HO by reflexivity.
  assert (chromeTimeStart (inject_Z t)
          == inject_Z ((t + WEBKIT_EPOCH_OFFSET) * 1000))%Q as Henc
    by (apply chromeTimeStart_exact; lia).
  assert (visitTimeMs (chromeTimeStart (inject_Z t)) == inject_Z t)%Q as Hback
    by (rewrite Henc; apply visitTimeMs_exact; lia).
  split; [done|]. split; [done|]. split.
  - unfold JsDate.of_number.
    assert (Qle_bool (Qabs (visitTimeMs (chromeTimeStart (inject_Z t))))
              (inject_Z JsDate.maxTime) = true) as ->.
    { apply Qle_bool_iff. rewrite Hback.
      assert (Qabs (inject_Z t) == inject_Z t)%Q as ->
        by (apply Qabs_pos; change 0%Q with (inject_Z 0); rewrite <- Zle_Qle; lia).
      rewrite <- Zle_Qle. unfold JsDate.maxTime.
      change WEBKIT_EPOCH_OFFSET with 11644473600000 in Hrange. lia. }
    by rewrite (trunc_comp _ _ Hback), trunc_inject_Z.
  - by apply stored_time_within_a_millisecond.
Qed.

Lemma timestamp_round_trip_witness :
  (chromeTimeStart (inject_Z 1705277103000)
   == inject_Z ((1705277103000 + WEBKIT_EPOCH_OFFSET) * 1000))%Q /\
  (visitTimeMs (chromeTimeStart (inject_Z 1705277103000))
   == inject_Z 1705277103000)%Q /\
  JsDate.of_number (visitTimeMs (chromeTimeStart (inject_Z 1705277103000)))
  = Some 1705277103000 /\
  exists d,
    JsDate.of_number
      (visitTimeMs (Binary64.round (inject_Z 13349750703000999))) = Some d /\
    (chromeTimeStart (inject_Z d) == inject_Z ((d + WEBKIT_EPOCH_OFFSET) * 1000))%Q /\
    Z.abs (13349750703000999 - (d + WEBKIT_EPOCH_OFFSET) * 1000) < 1000.
Proof.
  apply (timestamp_round_trip 1705277103000 13349750703000999).
  - lia.
  - vm_compute. discriminate.
  - vm_compute. discriminate.
Defined.

(** What a visit time of the present day looks like after each step:
    the stored integer [13349718002999999] is handed over as the number
    [13349718003000000]. *)
Example stored_time_is_rounded :
  (Binary64.round (inject_Z 13349718002999999) == inject_Z 13349718003000000)%Q /\
  JsDate.of_number (visitTimeMs (Binary64.round (inject_Z 13349718002999999)))
  = Some 1705244403000.
Proof. split; vm_compute; reflexivity. Qed.

(** ** A run of the handler *)

Example mon_midnight_raw_eq :
  chromeTimeStart_of (JsDate.setHours0 tokyo mon_morning)
  = Some (inject_Z mon_midnight_raw).
Proof. vm_compute. reflexivity. Qed.

Example chrome_hist_tool_four_rows :
  fst (chrome_hist_tool (linux_host no_faults) None
         (world_with linux_history four_rows mon_morning []))
  = Return
      (let s :=
         "## A" +:+ nl +:+ "  - URL: https://a.example/" +:+ nl +:+
         "  - Visited At: 2024/1/15 0:00:03" +:+ nl +:+ nl +:+
         "## B" +:+ nl +:+ "  - URL: https://b.example/" +:+ nl +:+
         "  - Visited At: 2024/1/15 0:00:02" +:+ nl +:+ nl +:+
         "## No Title" +:+ nl +:+ "  - URL: https://c.example/" +:+ nl +:+
         "  - Visited At: 2024/1/15 0:00:01" +:+ nl in
       {| text := s; result := s |}).
Proof. vm_compute. reflexivity. Qed.

Example chrome_hist_tool_four_rows_cleans_up :
  let w' :=
    snd (chrome_hist_tool (linux_host no_faults) None
           (world_with linux_history four_rows mon_morning [])) in
  files w' !! "/tmp/chrome_history_copy_1705277103000.sqlite" = None /\
  files w' !! linux_history = Some (HistoryDb four_rows) /\
  size (files w') = 1%nat.
Proof. repeat split; vm_compute; reflexivity. Qed.

(** ** Facts about the string functions *)

Lemma startsWith_refl (s : string) : startsWith s s = true.
Proof. induction s as [|c s IH]; simpl; [done|]. by rewrite decide_True. Qed.

Lemma includes_suffix (p s : string) : includes s (p +:+ s) = true.
Proof.
  induction p as [|c p IH]; simpl.
  - destruct s; simpl; [done|]. by rewrite decide_True, startsWith_refl.
  - rewrite IH. apply orb_true_r.
Qed.

(** ** The platform locator *)

Lemma getChromeHistoryPath_linux (h : Host) :
  platform h = "linux" ->
  getChromeHistoryPath h
  = Return (Path.posix_join (homedir h) ".config/google-chrome/Default/History").
Proof.
  intros Hp. unfold getChromeHistoryPath, path_join. rewrite Hp. reflexivity.
Qed.

Example getChromeHistoryPath_windows :
  getChromeHistoryPath (windows_host no_faults) = Return windows_history /\
  tempPathAt (windows_host no_faults) mon_morning = windows_temp.
Proof. split; vm_compute; reflexivity. Qed.

Example isWSL_plain_linux : isWSL (linux_host no_faults) = false.
Proof. vm_compute. reflexivity. Qed.

(** C2. On a WSL guest ([process.platform] is [linux], the kernel release
    carries the [microsoft] signature, so that [isWSL] answers [true]) the
    path returned is the one under the guest's own home directory:
    [getChromeHistoryPath] consults neither [isWSL] nor
    [getWindowsUsername], although both are defined and the latter would
    have produced the host's account name. *)
Theorem wsl_history_path_is_guest_home :
  isWSL wsl_host = true /\
  getWindowsUsername wsl_host = Return "Alice" /\
  getChromeHistoryPath wsl_host
  = Return "/home/alice/.config/google-chrome/Default/History".
Proof. repeat split; vm_compute; reflexivity. Qed.

(** The same holds when the lookup of the host's account name would fail:
    the path under the guest's home is returned, no error is raised. *)
Lemma wsl_history_path_ignores_lookup_failure :
  let h :=
    {| platform := platform wsl_host; os_release := os_release wsl_host;
       proc_version := proc_version wsl_host; homedir := homedir wsl_host;
       tmpdir := tmpdir wsl_host; timezone := timezone wsl_host;
       tie_rank := tie_rank wsl_host;
       cmd_exe_username := None; faults := no_faults |} in
  isWSL h = true /\
  (exists m, getWindowsUsername h = Throw (Error m)) /\
  getChromeHistoryPath h
  = Return "/home/alice/.config/google-chrome/Default/History".
Proof.
  split; [vm_compute; reflexivity|].
  split; [eexists; reflexivity | vm_compute; reflexivity].
Qed.

(** ** The handler, step by step *)

Lemma existsSync_None (p : string) (w : World) :
  files w !! p = None -> Fs.existsSync p w = (Return false, w).
Proof.
  intros E. unfold Fs.existsSync. rewrite E.
  rewrite bool_decide_eq_false_2; [done|]. by intros [? ?].
Qed.

Lemma existsSync_Some (p : string) (w : World) (d : FileData) :
  files w !! p = Some d -> Fs.existsSync p w = (Return true, w).
Proof.
  intros E. unfold Fs.existsSync. rewrite E.
  rewrite bool_decide_eq_true_2; [done|]. by eexists.
Qed.

(** C9. If the history file at the resolved path does not exist, the
    handler fails before anything else happens: the error's message ends
    with, hence contains, the source path, and the world is left as it
    was; no copy was attempted and no temporary file exists that did not
    exist before. *)
Theorem missing_source_fails_before_copy
    (h : Host) (limit : option Q) (w : World) (src : string) :
  getChromeHistoryPath h = Return src ->
  files w !! src = None ->
  exists message,
    chrome_hist_tool h limit w = (Throw (Error message), w) /\
    includes src message = true.
Proof.
  intros Hp Hsrc.
  exists ("Chromeの履歴ファイルが見つかりません: " +:+ src). split.
  - unfold chrome_hist_tool, bind, lift_outcome. rewrite Hp.
    rewrite (existsSync_None _ _ Hsrc). reflexivity.
  - apply includes_suffix.
Qed.

Lemma missing_source_fails_before_copy_witness :
  exists message,
    chrome_hist_tool (linux_host no_faults) None (empty_world mon_morning)
    = (Throw (Error message), empty_world mon_morning) /\
    includes linux_history message = true.
Proof.
  apply (missing_source_fails_before_copy (linux_host no_faults) None
           (empty_world mon_morning) linux_history).
  - reflexivity.
  - reflexivity.
Defined.

(** ** The snapshot copy and its disposal *)

Lemma copyHistoryFile_handle (h : Host) (src : string) (w w1 : World)
    (c : TempCopy) :
  copyHistoryFile h src w = (Return c, w1) -> c = handle_at h (now w).
Proof.
  unfold handle_at.
  unfold copyHistoryFile, bind, Date_now, Fs.copyFileSync, console_log, ret.
  fold (tempPathAt h (now w)).
  destruct (files (tick w) !! src); [|discriminate].
  destruct (copy_fault (faults h)) as [[?|? ?]|]; try discriminate.
  by intros [= <- _].
Qed.

Lemma dispose_copy_absent (h : Host) (p : string) (w : World) :
  files w !! p = None -> dispose_copy h p w = (Return tt, w).
Proof.
  intros E. unfold dispose_copy, bind. by rewrite (existsSync_None _ _ E).
Qed.

Lemma dispose_copy_present (h : Host) (p : string) (w : World) (d : FileData) :
  files w !! p = Some d ->
  dispose_copy h p w =
  match unlink_fault (faults h) with
  | Some code => (Throw (SystemError "unlink" code p), w)
  | None =>
      (Return tt,
       {| files := delete p (files w); now := now w; later := later w;
          console :=
            LogText ("Deleted temporary history DB copy: " +:+ p) :: console w |})
  end.
Proof.
  intros E. unfold dispose_copy, bind. rewrite (existsSync_Some _ _ _ E).
  unfold Fs.unlinkSync. rewrite E.
  by destruct (unlink_fault (faults h)).
Qed.

(** C10. The [[Symbol.dispose]] of a snapshot handle first checks that the
    temporary file exists. Disposing a handle whose file is already gone
    does nothing to the world (no file system change, nothing logged) and
    returns normally, whatever the runtime would have answered to an
    [unlink]; when the file is there, it is unlinked (or the unlink's error
    is raised). *)
Theorem dispose_checks_existence
    (h : Host) (src : string) (w w1 : World) (c : TempCopy) (w' : World) :
  copyHistoryFile h src w = (Return c, w1) ->
  (files w' !! path c = None -> symbol_dispose c w' = (Return tt, w')) /\
  (forall d, files w' !! path c = Some d ->
     unlink_fault (faults h) = None ->
     exists w'', symbol_dispose c w' = (Return tt, w'') /\
                 files w'' = delete (path c) (files w')).
Proof.
  intros Hc. apply copyHistoryFile_handle in Hc as ->. simpl.
  unfold symbol_dispose, TempCopy_disposable. simpl. split.
  - apply dispose_copy_absent.
  - intros d Hd Hu. rewrite (dispose_copy_present _ _ _ _ Hd), Hu.
    eexists. split; reflexivity.
Qed.

Lemma dispose_checks_existence_witness :
  copyHistoryFile (linux_host no_faults) linux_history
    (world_with linux_history four_rows mon_morning [])
  = (Return copied_handle, copied_world) /\
  symbol_dispose copied_handle (empty_world mon_morning)
  = (Return tt, empty_world mon_morning).
Proof.
  assert (copyHistoryFile (linux_host no_faults) linux_history
            (world_with linux_history four_rows mon_morning [])
          = (Return copied_handle, copied_world)) as Hc
    by (vm_compute; reflexivity).
  split; [exact Hc|].
  apply (dispose_checks_existence (linux_host no_faults) linux_history
           (world_with linux_history four_rows mon_morning []) copied_world
           copied_handle (empty_world mon_morning) Hc).
  reflexivity.
Defined.

(** *** What the block between the two [using] declarations and the end of
    the handler does to the file system: nothing. *)

Lemma tick_files (w : World) : files (tick w) = files w.
Proof. unfold tick. by destruct (later w). Qed.

Lemma tick_console (w : World) : console (tick w) = console w.
Proof. unfold tick. by destruct (later w). Qed.

Lemma keeps_files_ret {A} (a : A) : keeps_files (ret a).
Proof. by intros w. Qed.

Lemma keeps_files_throw {A} (e : Exn) : keeps_files (@throw A e).
Proof. by intros w. Qed.

Lemma keeps_files_bind {A B} (m : M A) (k : A -> M B) :
  keeps_files m -> (forall a, keeps_files (k a)) -> keeps_files (bind m k).
Proof.
  intros Hm Hk w. unfold bind. specialize (Hm w).
  destruct (m w) as [[a|e] w']; simpl in *; [|done].
  by rewrite Hk.
Qed.

Lemma keeps_files_console_log (e : LogEntry) : keeps_files (console_log e).
Proof. by intros w. Qed.

Lemma keeps_files_Date_now : keeps_files Date_now.
Proof. intros w. apply tick_files. Qed.

Lemma keeps_files_open (h : Host) (p : string) :
  keeps_files (Sqlite.open_readonly h p).
Proof.
  intros w. unfold Sqlite.open_readonly.
  destruct (open_fault (faults h)); [done|]. by destruct (files w !! p).
Qed.

Lemma keeps_files_close (h : Host) (d : Sqlite.Database) :
  keeps_files (Sqlite.close h d).
Proof. intros w. unfold Sqlite.close. by destruct (close_fault (faults h)). Qed.

Lemma keeps_files_prepare_all (h : Host) (d : Sqlite.Database)
    (since : option Q) (l : Q) :
  keeps_files (Sqlite.prepare_all h d since l).
Proof.
  intros w. unfold Sqlite.prepare_all.
  destruct (query_fault (faults h)); [done|].
  by destruct (files w !! Sqlite.db_file d) as [[|urls]|].
Qed.

Lemma keeps_files_using {R A} `{Disposable R} (acquire : M R) (block : R -> M A) :
  keeps_files acquire ->
  (forall r, keeps_files (block r)) ->
  (forall w r w1, acquire w = (Return r, w1) -> keeps_files (symbol_dispose r)) ->
  keeps_files (using_ acquire block).
Proof.
  intros Ha Hb Hd w. unfold using_.
  specialize (Ha w). destruct (acquire w) as [[r|e] w1] eqn:Hacq; simpl in *; [|done].
  specialize (Hb r w1). specialize (Hd w r w1 Hacq).
  destruct (block r w1) as [[a|e] w2]; simpl in *;
    specialize (Hd w2);
    destruct (symbol_dispose r w2) as [[[]|d] w3]; simpl in *; congruence.
Qed.

Create HintDb keeps.
#[local] Hint Resolve keeps_files_ret keeps_files_throw keeps_files_console_log
  keeps_files_Date_now keeps_files_open keeps_files_close
  keeps_files_prepare_all : keeps.

Lemma keeps_files_openSqlite (h : Host) (p : string) :
  keeps_files (openSqlite h p).
Proof.
  unfold openSqlite. apply keeps_files_bind; auto with keeps.
Qed.

Lemma openSqlite_dispose_keeps_files (h : Host) (p : string) (w w1 : World)
    (r : DbHandle) :
  openSqlite h p w = (Return r, w1) -> keeps_files (symbol_dispose r).
Proof.
  unfold openSqlite, bind, ret.
  destruct (Sqlite.open_readonly h p w) as [[d|e] w']; [|discriminate].
  intros [= <- _]. unfold symbol_dispose, DbHandle_disposable. simpl.
  apply keeps_files_bind; auto with keeps.
Qed.

Lemma chrome_hist_tool_unfold (h : Host) (limit : option Q) :
  chrome_hist_tool h limit =
  (let* historyPath := lift_outcome (getChromeHistoryPath h) in
   let* present := Fs.existsSync historyPath in
   if negb present then
     throw (Error ("Chromeの履歴ファイルが見つかりません: " +:+ historyPath))
   else using_ (copyHistoryFile h historyPath) (query_block h limit)).
Proof. reflexivity. Qed.

Lemma keeps_files_query_block (h : Host) (limit : option Q) (c : TempCopy) :
  keeps_files (query_block h limit c).
Proof.
  unfold query_block. apply keeps_files_using.
  - apply keeps_files_openSqlite.
  - intros r. apply keeps_files_bind; [auto with keeps|]. intros t.
    apply keeps_files_bind; [auto with keeps|]. intros rows.
    apply keeps_files_bind; auto with keeps.
  - intros w r w1 Hr. eapply openSqlite_dispose_keeps_files, Hr.
Qed.

Lemma copyHistoryFile_ok (h : Host) (src : string) (w : World) (data : FileData) :
  files w !! src = Some data ->
  copy_fault (faults h) = None ->
  copyHistoryFile h src w
  = (Return (handle_at h (now w)), world_after_copy h data w).
Proof.
  intros Hsrc Hf. unfold handle_at, world_after_copy.
  unfold copyHistoryFile, bind, Date_now, Fs.copyFileSync, console_log, ret.
  fold (tempPathAt h (now w)).
  rewrite tick_files, Hsrc, Hf. simpl. by rewrite tick_console.
Qed.

Lemma copyHistoryFile_fails (h : Host) (src : string) (w : World)
    (data : FileData) (f : CopyFault) :
  files w !! src = Some data ->
  copy_fault (faults h) = Some f ->
  copyHistoryFile h src w =
  match f with
  | CopyFailsBeforeOpen code =>
      (Throw (SystemError "copyfile" code src), tick w)
  | CopyFailsAfterOpen code removed =>
      (Throw (SystemError "copyfile" code src),
       with_files (if removed then delete (tempPathAt h (now w)) (files w)
                   else <[tempPathAt h (now w) := Opaque]> (files w)) (tick w))
  end.
Proof.
  intros Hsrc Hf.
  unfold copyHistoryFile, bind, Date_now, Fs.copyFileSync.
  fold (tempPathAt h (now w)).
  rewrite tick_files, Hsrc, Hf. by destruct f.
Qed.

(** ** Cleanup at scope exit *)

(** C3, as stated, fails. With a history of four rows the query succeeds
    and, on a Windows host where nothing fails, the handler returns its
    rendering; on the same host with an [unlink] that fails (the new file
    is held open by another process) the handler ends in the error of the
    [unlink] instead, and the temporary file is still there. *)
Lemma cleanup_failure_is_escalated :
  let w := world_with windows_history four_rows mon_morning [] in
  (exists r, fst (chrome_hist_tool (windows_host no_faults) None w) = Return r) /\
  fst (chrome_hist_tool (windows_host ebusy_faults) None w)
  = Throw (SystemError "unlink" "EBUSY" windows_temp) /\
  files (snd (chrome_hist_tool (windows_host ebusy_faults) None w)) !! windows_temp
  = Some (HistoryDb four_rows).
Proof.
  split; [eexists; vm_compute; reflexivity|].
  split; vm_compute; reflexivity.
Qed.

(** C3, amended. Whenever a snapshot copy was created, on exit of the
    enclosing scope, whether the query succeeded or an error propagates
    from deeper calls, the deletion of the temporary file is attempted.
    If the [unlink] succeeds the file no longer exists and the handler ends
    as the block did. If it fails the failure is escalated: the file stays
    and the handler ends in the [unlink]'s error, which replaces a
    successful result and wraps a propagating error in a
    [SuppressedError]. *)
Theorem cleanup_on_scope_exit
    (h : Host) (limit : option Q) (w : World) (src : string) (data : FileData) :
  getChromeHistoryPath h = Return src ->
  files w !! src = Some data ->
  copy_fault (faults h) = None ->
  let tmp := tempPathAt h (now w) in
  let block :=
    fst (query_block h limit (handle_at h (now w)) (world_after_copy h data w)) in
  let run := chrome_hist_tool h limit w in
  match unlink_fault (faults h) with
  | None => files (snd run) !! tmp = None /\ fst run = block
  | Some code =>
      files (snd run) !! tmp = Some data /\
      fst run =
      match block with
      | Return _ => Throw (SystemError "unlink" code tmp)
      | Throw e => Throw (SuppressedError (SystemError "unlink" code tmp) e)
      end
  end.
Proof.
  intros Hp Hsrc Hcopy tmp block run. subst run block.
  rewrite chrome_hist_tool_unfold. unfold bind at 1, lift_outcome. rewrite Hp.
  unfold bind. rewrite (existsSync_Some _ _ _ Hsrc). simpl.
  unfold using_. rewrite (copyHistoryFile_ok _ _ _ _ Hsrc Hcopy).
  pose proof (keeps_files_query_block h limit (handle_at h (now w))
                (world_after_copy h data w)) as Hk.
  destruct (query_block h limit (handle_at h (now w))
              (world_after_copy h data w)) as [o w2].
  simpl in Hk. fold tmp in Hk.
  assert (files w2 !! tmp = Some data) as Htmp
    by (rewrite Hk; apply lookup_insert_eq).
  unfold symbol_dispose, TempCopy_disposable. simpl. fold tmp.
  rewrite (dispose_copy_present _ _ _ _ Htmp).
  destruct (unlink_fault (faults h)) as [code|], o as [r|e]; simpl;
    (split; [done || apply lookup_delete_eq | done]).
Qed.

Lemma cleanup_on_scope_exit_witness :
  let h := windows_host ebusy_faults in
  let w := world_with windows_history four_rows mon_morning [] in
  let tmp := tempPathAt h mon_morning in
  let block :=
    fst (query_block h None (handle_at h mon_morning)
           (world_after_copy h (HistoryDb four_rows) w)) in
  let run := chrome_hist_tool h None w in
  files (snd run) !! tmp = Some (HistoryDb four_rows) /\
  fst run =
  match block with
  | Return _ => Throw (SystemError "unlink" "EBUSY" tmp)
  | Throw e => Throw (SuppressedError (SystemError "unlink" "EBUSY" tmp) e)
  end.
Proof.
  apply (cleanup_on_scope_exit (windows_host ebusy_faults) None
           (world_with windows_history four_rows mon_morning []) windows_history
           (HistoryDb four_rows)).
  - reflexivity.
  - reflexivity.
  - reflexivity.
Defined.

(** ** A copy that fails *)

(** C8, as stated, fails. The copy breaks off with an I/O error after the
    destination was opened, and the runtime's attempt to remove the
    destination fails too: the handler passes the error on and the cut
    short temporary file is still there. *)
Lemma partial_copy_is_left_behind :
  let w := world_with linux_history four_rows mon_morning [] in
  let tmp := "/tmp/chrome_history_copy_1705277103000.sqlite" in
  fst (chrome_hist_tool (linux_host eio_faults) None w)
  = Throw (SystemError "copyfile" "EIO" linux_history) /\
  files w !! tmp = None /\
  files (snd (chrome_hist_tool (linux_host eio_faults) None w)) !! tmp
  = Some Opaque.
Proof. repeat split; vm_compute; reflexivity. Qed.

(** C8, amended. If the copy from the history file to the temporary path
    fails, the handler fails with the error of the copy, unchanged, and
    does nothing about the temporary file itself: nothing is logged and
    the file system is left exactly as [copyFileSync] left it. So no
    temporary file remains when the copy failed before the destination was
    opened (and none was there) or when the runtime's own removal of the
    destination succeeded; a cut short file remains when that removal
    failed. *)
Theorem failed_copy_propagates
    (h : Host) (limit : option Q) (w : World) (src : string) (data : FileData)
    (f : CopyFault) :
  getChromeHistoryPath h = Return src ->
  files w !! src = Some data ->
  copy_fault (faults h) = Some f ->
  let tmp := tempPathAt h (now w) in
  let run := chrome_hist_tool h limit w in
  console (snd run) = console w /\
  match f with
  | CopyFailsBeforeOpen code =>
      fst run = Throw (SystemError "copyfile" code src) /\
      files (snd run) = files w
  | CopyFailsAfterOpen code true =>
      fst run = Throw (SystemError "copyfile" code src) /\
      files (snd run) = delete tmp (files w) /\
      files (snd run) !! tmp = None
  | CopyFailsAfterOpen code false =>
      fst run = Throw (SystemError "copyfile" code src) /\
      files (snd run) = <[tmp := Opaque]> (files w)
  end.
Proof.
  intros Hp Hsrc Hcopy tmp run. subst run.
  rewrite chrome_hist_tool_unfold. unfold bind at 1, lift_outcome. rewrite Hp.
  unfold bind. rewrite (existsSync_Some _ _ _ Hsrc). simpl.
  unfold using_. rewrite (copyHistoryFile_fails _ _ _ _ _ Hsrc Hcopy).
  fold tmp.
  destruct f as [code|code [|]]; simpl; rewrite tick_console, ?tick_files;
    repeat split; try done.
  apply lookup_delete_eq.
Qed.

Lemma failed_copy_propagates_witness :
  let w := world_with linux_history four_rows mon_morning [] in
  let tmp := tempPathAt (linux_host enospc_faults) mon_morning in
  let run := chrome_hist_tool (linux_host enospc_faults) None w in
  console (snd run) = [] /\
  fst run = Throw (SystemError "copyfile" "ENOSPC" linux_history) /\
  files (snd run) = delete tmp (files w) /\
  files (snd run) !! tmp = None.
Proof.
  apply (failed_copy_propagates (linux_host enospc_faults) None
           (world_with linux_history four_rows mon_morning []) linux_history
           (HistoryDb four_rows) (CopyFailsAfterOpen "ENOSPC" true)).
  - reflexivity.
  - reflexivity.
  - reflexivity.
Defined.

(** ** The query *)

#[global] Instance recent_first_total rank : Total (Sqlite.recent_first rank).
Proof. intros a b. unfold Sqlite.recent_first. lia. Qed.

Lemma Sorted_descending (rank : UrlRow -> Z) (rows : list UrlRow) :
  Sorted (Sqlite.recent_first rank) rows -> descending rows.
Proof.
  induction 1 as [|a l Hl IH Hhd]; intros i x y Hx Hy; [done|].
  destruct i as [|i]; simpl in *.
  - injection Hx as <-. destruct Hhd as [|b l' Hab]; [done|].
    simpl in Hy. injection Hy as <-. unfold Sqlite.recent_first in Hab. lia.
  - by eapply IH.
Qed.

Lemma descending_take (n : nat) (rows : list UrlRow) :
  descending rows -> descending (take n rows).
Proof.
  intros H i a b Ha Hb.
  apply lookup_take_Some in Ha as [Ha _]. apply lookup_take_Some in Hb as [Hb _].
  by eapply H.
Qed.

Lemma as_integer_inject_Z (n : Z) :
  - 2 ^ 63 < n < 2 ^ 63 -> Sqlite.as_integer (inject_Z n) = Some n.
Proof.
  intros Hn. unfold Sqlite.as_integer. rewrite inject_Z_Qred. simpl.
  rewrite (proj2 (Z.ltb_lt _ _)), (proj2 (Z.ltb_lt _ _)) by lia. done.
Qed.


(** The rows the statement returns for an integer limit [n >= 0]: at most
    [n] of them, each visited after [since], latest first, and each a row
    of the table. *)
Lemma query_bounded (rank : UrlRow -> Z) (urls : list UrlRow)
    (since : option Q) (n : Z) :
  0 <= n < 2 ^ 63 ->
  exists rows,
    Sqlite.query rank urls since (inject_Z n) = Return rows /\
    Z.of_nat (length rows) <= n /\
    Forall (Sqlite.selected since) rows /\
    descending rows /\
    rows ⊆ urls.
Proof.
  intros Hn. unfold Sqlite.query. rewrite as_integer_inject_Z by lia.
  eexists. split; [reflexivity|].
  unfold Sqlite.apply_limit. rewrite (proj2 (Z.ltb_ge n 0)) by lia.
  set (sorted := merge_sort (Sqlite.recent_first rank) _).
  assert (forall r, r ∈ sorted -> Sqlite.selected since r /\ r ∈ urls) as Hin.
  { intros r Hr. subst sorted. rewrite merge_sort_Permutation in Hr.
    by apply list_elem_of_filter in Hr. }
  repeat split.
  - pose proof (firstn_le_length (Z.to_nat n) sorted). lia.
  - apply Forall_forall. intros r Hr.
    apply Hin. by apply (subseteq_take (Z.to_nat n)).
  - apply descending_take, (Sorted_descending rank).
    subst sorted. apply Sorted_merge_sort. apply _.
  - intros r Hr. apply Hin. by apply (subseteq_take (Z.to_nat n)).
Qed.


Lemma limit_or_10_default (limit : option Q) :
  absent_or_zero limit -> limit_or_10 limit = inject_Z 10.
Proof.
  destruct limit as [q|]; simpl; [|done].
  intros Hq. by rewrite (proj2 (Qeq_bool_iff q 0) Hq).
Qed.

Lemma query_block_success
    (h : Host) (limit : option Q) (c : TempCopy) (w : World)
    (urls rows : list UrlRow) :
  faults h = no_faults ->
  files w !! path c = Some (HistoryDb urls) ->
  Sqlite.query (tie_rank h) urls
    (chromeTimeStart_of (JsDate.setHours0 (timezone h) (now w)))
    (limit_or_10 limit) = Return rows ->
  query_block h limit c w =
  (Return (response_of h rows),
   {| files := files w; now := now (tick w); later := later (tick w);
      console :=
        LogText "Closed SQLite database connection."
        :: LogResults (map (toEntry h) rows) :: console w |}).
Proof.
  intros Hf Hfile Hq.
  unfold query_block, using_, openSqlite, bind, ret, Sqlite.open_readonly,
    Date_now, Sqlite.prepare_all, Sqlite.close, console_log,
    symbol_dispose, DbHandle_disposable.
  rewrite Hf. simpl. rewrite Hfile. simpl. rewrite tick_files, Hfile.
  rewrite Hq. simpl. by rewrite tick_console, tick_files.
Qed.

Lemma query_block_query_fails
    (h : Host) (limit : option Q) (c : TempCopy) (w : World)
    (urls : list UrlRow) (e : Exn) :
  faults h = no_faults ->
  files w !! path c = Some (HistoryDb urls) ->
  Sqlite.query (tie_rank h) urls
    (chromeTimeStart_of (JsDate.setHours0 (timezone h) (now w)))
    (limit_or_10 limit) = Throw e ->
  query_block h limit c w =
  (Throw e,
   {| files := files w; now := now (tick w); later := later (tick w);
      console := LogText "Closed SQLite database connection." :: console w |}).
Proof.
  intros Hf Hfile Hq.
  unfold query_block, using_, openSqlite, bind, ret, Sqlite.open_readonly,
    Date_now, Sqlite.prepare_all, Sqlite.close, console_log,
    symbol_dispose, DbHandle_disposable.
  rewrite Hf. simpl. rewrite Hfile. simpl. rewrite tick_files, Hfile.
  rewrite Hq. simpl. by rewrite tick_console, tick_files.
Qed.

(** A run on a host where no system call fails, with a history database at
    the resolved path: the handler returns the rendering of the rows that
    the query gives for the start of the local day of the clock's second
    reading, has printed their entries, and has removed the copy. *)
Lemma chrome_hist_tool_success
    (h : Host) (limit : option Q) (w : World) (src : string)
    (urls rows : list UrlRow) :
  getChromeHistoryPath h = Return src ->
  files w !! src = Some (HistoryDb urls) ->
  faults h = no_faults ->
  Sqlite.query (tie_rank h) urls (today h w) (limit_or_10 limit) = Return rows ->
  exists w',
    chrome_hist_tool h limit w = (Return (response_of h rows), w') /\
    logged_results (console w') = Some (map (toEntry h) rows) /\
    files w' !! tempPathAt h (now w) = None.
Proof.
  intros Hp Hsrc Hf Hq.
  rewrite chrome_hist_tool_unfold. unfold bind at 1, lift_outcome. rewrite Hp.
  unfold bind at 1. rewrite (existsSync_Some _ _ _ Hsrc). simpl.
  unfold using_ at 1. rewrite (copyHistoryFile_ok _ _ _ _ Hsrc) by (by rewrite Hf).
  set (tmp := tempPathAt h (now w)).
  erewrite (query_block_success h limit _ _ urls rows Hf);
    [|apply lookup_insert_eq|exact Hq].
  unfold symbol_dispose, TempCopy_disposable. simpl.
  erewrite dispose_copy_present by apply lookup_insert_eq.
  rewrite Hf. simpl.
  eexists. split; [reflexivity|]. split; [reflexivity|].
  simpl. apply lookup_delete_eq.
Qed.

(** The same run when the statement fails: the error of the statement
    leaves the handler, and the copy is removed all the same. *)
Lemma chrome_hist_tool_query_fails
    (h : Host) (limit : option Q) (w : World) (src : string)
    (urls : list UrlRow) (e : Exn) :
  getChromeHistoryPath h = Return src ->
  files w !! src = Some (HistoryDb urls) ->
  faults h = no_faults ->
  Sqlite.query (tie_rank h) urls (today h w) (limit_or_10 limit) = Throw e ->
  exists w',
    chrome_hist_tool h limit w = (Throw e, w') /\
    files w' !! tempPathAt h (now w) = None.
Proof.
  intros Hp Hsrc Hf Hq.
  rewrite chrome_hist_tool_unfold. unfold bind at 1, lift_outcome. rewrite Hp.
  unfold bind at 1. rewrite (existsSync_Some _ _ _ Hsrc). simpl.
  unfold using_ at 1. rewrite (copyHistoryFile_ok _ _ _ _ Hsrc) by (by rewrite Hf).
  erewrite (query_block_query_fails h limit _ _ urls);
    [|done|apply lookup_insert_eq|exact Hq].
  unfold symbol_dispose, TempCopy_disposable. simpl.
  erewrite dispose_copy_present by apply lookup_insert_eq.
  rewrite Hf. simpl. eexists. split; [reflexivity|]. apply lookup_delete_eq.
Qed.




(** C4, as stated, fails: [-1] is not a positive integer, yet it is not
    replaced by the default. It reaches the statement as it is, where a
    negative LIMIT is no bound: with eleven visits today, eleven entries
    come back. A limit with a fractional part is not replaced either; the
    statement then fails. *)
Lemma negative_limit_is_not_defaulted :
  let run :=
    chrome_hist_tool (linux_host no_faults) (Some (-1)%Q)
      (world_with linux_history eleven_rows mon_morning []) in
  limit_or_10 (Some (-1)%Q) = (-1)%Q /\
  fst run = Return (response_of (linux_host no_faults) (rev eleven_rows)) /\
  length <$> logged_results (console (snd run)) = Some 11%nat.
Proof. repeat split; vm_compute; reflexivity. Qed.

Example fractional_limit_fails :
  fst (chrome_hist_tool (linux_host no_faults) (Some (5 # 2))
         (world_with linux_history eleven_rows mon_morning []))
  = Throw (SqliteError "datatype mismatch").
Proof. vm_compute. reflexivity. Qed.

(** C4, amended. For every invocation whose [limit] is absent or is 0, the
    query is executed with the default limit of 10, so that at most 10
    entries are returned. *)
Theorem default_limit
    (h : Host) (limit : option Q) (w : World) (src : string)
    (urls : list UrlRow) :
  absent_or_zero limit ->
  getChromeHistoryPath h = Return src ->
  files w !! src = Some (HistoryDb urls) ->
  faults h = no_faults ->
  let startOfToday := JsDate.setHours0 (timezone h) (now (tick w)) in
  limit_or_10 limit = inject_Z 10 /\
  exists rows w',
    Sqlite.query (tie_rank h) urls (chromeTimeStart_of startOfToday) (inject_Z 10)
    = Return rows /\
    chrome_hist_tool h limit w = (Return (response_of h rows), w') /\
    logged_results (console w') = Some (map (toEntry h) rows) /\
    (length rows <= 10)%nat.
Proof.
  intros Hl Hp Hsrc Hf startOfToday.
  split; [by apply limit_or_10_default|].
  destruct (query_bounded (tie_rank h) urls (chromeTimeStart_of startOfToday) 10)
    as (rows & Hq & Hlen & _); [lia|].
  destruct (chrome_hist_tool_success h limit w src urls rows)
    as (w' & Hrun & Hlog & _); try done.
  { by rewrite limit_or_10_default. }
  exists rows, w'. repeat split; try done. lia.
Qed.

Lemma default_limit_witness :
  let h := linux_host no_faults in
  let w := world_with linux_history eleven_rows mon_morning [] in
  limit_or_10 (Some (0 # 7)) = inject_Z 10 /\
  exists rows w',
    Sqlite.query no_rank eleven_rows (Some (inject_Z mon_midnight_raw)) (inject_Z 10)
    = Return rows /\
    chrome_hist_tool h (Some (0 # 7)) w = (Return (response_of h rows), w') /\
    logged_results (console w') = Some (map (toEntry h) rows) /\
    (length rows <= 10)%nat.
Proof.
  apply (default_limit (linux_host no_faults) (Some (0 # 7))
           (world_with linux_history eleven_rows mon_morning []) linux_history
           eleven_rows).
  - reflexivity.
  - reflexivity.
  - reflexivity.
  - reflexivity.
Defined.

(** ** Failures at the tool boundary *)

(** The neighbouring tool always answers with a response: whatever the
    request to the feed does, the [catch] turns it into the usual shape,
    with the message in both fields. *)
Lemma qiita_feed_always_responds
    (parseURL : string -> Outcome (list Server.FeedItem))
    (topic : option string) (w : World) :
  exists r, Server.qiita_feed parseURL topic w = (Return r, w) /\ text r = result r.
Proof.
  unfold Server.qiita_feed, try_catch, bind, lift_outcome, ret.
  destruct (parseURL _) as [items|e]; eexists; split; reflexivity.
Qed.

Lemma qiita_feed_reports_error
    (parseURL : string -> Outcome (list Server.FeedItem)) (w : World) (m : string) :
  parseURL "https://qiita.com/popular-items/feed.atom" = Throw (Error m) ->
  Server.qiita_feed parseURL None w
  = (Return {| text := "Error fetching articles from Qiita: " +:+ m;
               result := "Error fetching articles from Qiita: " +:+ m |}, w).
Proof.
  intros E. unfold Server.qiita_feed, try_catch, bind, lift_outcome, ret.
  by rewrite E.
Qed.

(** C7. The handler of the history tool has no [try]: a failure of any
    stage leaves the handler as a thrown error, not as a response. On an
    unsupported platform, with the history file missing, with a copy that
    fails, with a database that cannot be opened and with a file that is
    not a database, the outcome is [Throw]. *)
Theorem failures_leave_the_handler_as_errors :
  fst (chrome_hist_tool freebsd_host None (empty_world mon_morning))
  = Throw (Error "サポートされていないOSです") /\
  fst (chrome_hist_tool (linux_host no_faults) None (empty_world mon_morning))
  = Throw (Error ("Chromeの履歴ファイルが見つかりません: " +:+ linux_history)) /\
  fst (chrome_hist_tool (linux_host before_open_faults) None
         (world_with linux_history four_rows mon_morning []))
  = Throw (SystemError "copyfile" "EACCES" linux_history) /\
  fst (chrome_hist_tool (linux_host enoent_open_faults) None
         (world_with linux_history four_rows mon_morning []))
  = Throw (SqliteError "unable to open database file") /\
  fst (chrome_hist_tool (linux_host no_faults) None (opaque_world mon_morning))
  = Throw (SqliteError "file is not a database").
Proof. repeat split; vm_compute; reflexivity. Qed.

(** ** Temporary paths *)

Lemma string_app_cons (x : ascii) (a b : string) :
  String x a +:+ b = String x (a +:+ b).
Proof. reflexivity. Qed.

Lemma string_app_assoc (a b c : string) : (a +:+ b) +:+ c = a +:+ (b +:+ c).
Proof. induction a as [|x a IH]; [done|]. rewrite !string_app_cons. by rewrite IH. Qed.

Lemma string_app_length (a b : string) :
  String.length (a +:+ b) = (String.length a + String.length b)%nat.
Proof.
  induction a as [|x a IH]; [done|]. rewrite string_app_cons. simpl. by rewrite IH.
Qed.

Lemma string_app_inv_tail (a b s : string) : a +:+ s = b +:+ s -> a = b.
Proof.
  revert b. induction a as [|x a IH]; intros [|y b] E; [done|..].
  - apply (f_equal String.length) in E.
    rewrite !string_app_length in E. simpl in E. lia.
  - apply (f_equal String.length) in E.
    rewrite !string_app_length in E. simpl in E. lia.
  - rewrite !string_app_cons in E. injection E as -> E. f_equal. by apply IH.
Qed.

Lemma string_forall_app (p : ascii -> bool) (a b : string) :
  string_forall p (a +:+ b) = string_forall p a && string_forall p b.
Proof.
  induction a as [|x a IH]; [done|]. rewrite string_app_cons. simpl.
  by rewrite IH, andb_assoc.
Qed.

Lemma plain_char_not_slash (c : ascii) :
  plain_char c = true -> Path.is_slash c = false.
Proof.
  unfold plain_char, Path.is_win_sep, Path.is_slash.
  destruct (bool_decide (c = "/"%char)); [done|done].
Qed.

Lemma plain_char_not_win_sep (c : ascii) :
  plain_char c = true -> Path.is_win_sep c = false.
Proof. unfold plain_char. by destruct (Path.is_win_sep c). Qed.

Lemma split_nonempty (sep : ascii -> bool) (s : string) : split sep s <> [].
Proof.
  destruct s as [|c r]; simpl; [done|].
  destruct (sep c); [done|]. by destruct (split sep r).
Qed.

Lemma split_app_sep (sep : ascii -> bool) (a b : string) (c : ascii) :
  sep c = true -> split sep (a +:+ String c b) = split sep a ++ split sep b.
Proof.
  intros Hc. induction a as [|x a IH].
  - change ("" +:+ String c b) with (String c b). simpl. by rewrite Hc.
  - rewrite string_app_cons. simpl. rewrite IH. destruct (sep x); [done|].
    pose proof (split_nonempty sep a). by destruct (split sep a).
Qed.

Lemma split_no_sep (sep : ascii -> bool) (s : string) :
  string_forall (fun c => negb (sep c)) s = true -> split sep s = [s].
Proof.
  induction s as [|c r IH]; simpl; [done|].
  intros [Hc Hr]%andb_true_iff. apply negb_true_iff in Hc. rewrite Hc.
  by rewrite (IH Hr).
Qed.

Lemma string_forall_impl (p q : ascii -> bool) (s : string) :
  (forall c, p c = true -> q c = true) ->
  string_forall p s = true -> string_forall q s = true.
Proof.
  intros Hpq. induction s as [|c r IH]; simpl; [done|].
  intros [Hc Hr]%andb_true_iff. by rewrite (Hpq _ Hc), (IH Hr).
Qed.

Lemma normalize_segments_snoc (allow : bool) (acc xs : list string) (name : string) :
  plain name ->
  Path.normalize_segments allow acc (xs ++ [name])
  = Path.normalize_segments allow acc xs ++ [name].
Proof.
  intros (_ & H0 & H1 & H2). revert acc.
  induction xs as [|x xs IH]; intros acc; simpl.
  - rewrite !bool_decide_eq_false_2 by done. reflexivity.
  - destruct (bool_decide (x = "") || bool_decide (x = ".")); [apply IH|].
    destruct (bool_decide (x = "..")); [|apply IH].
    destruct acc as [|top acc']; [apply IH|].
    destruct (bool_decide (top = "..")); apply IH.
Qed.

Lemma join_snoc (sep : string) (ys : list string) (n : string) :
  join sep (ys ++ [n]) = join_prefix sep ys +:+ n.
Proof.
  induction ys as [|y ys IH]; [done|].
  change (join sep ((y :: ys) ++ [n])) with
    (match ys ++ [n] with [] => y | _ => y +:+ sep +:+ join sep (ys ++ [n]) end).
  destruct (ys ++ [n]) eqn:E; [by destruct ys|].
  rewrite IH. simpl. by rewrite !string_app_assoc.
Qed.

Lemma first_char_app (a b : string) :
  a <> "" -> first_char (a +:+ b) = first_char a.
Proof. by destruct a. Qed.

Lemma last_char_app (a b : string) :
  b <> "" -> last_char (a +:+ b) = last_char b.
Proof.
  intros Hb. induction a as [|x a IH]; [done|].
  rewrite string_app_cons. simpl. rewrite IH. destruct (a +:+ b) eqn:E; [|done].
  destruct a, b; done.
Qed.

Lemma last_char_forall (p : ascii -> bool) (s : string) :
  string_forall p s = true ->
  Path.is_some_and (fun c => negb (p c)) (last_char s) = false.
Proof.
  induction s as [|c r IH]; [done|]. simpl.
  intros [Hc Hr]%andb_true_iff. destruct r; [|by apply IH].
  simpl. by rewrite Hc.
Qed.

Lemma app_plain_nonempty (pre name : string) :
  name <> "" -> exists c r, pre +:+ name = String c r.
Proof.
  intros Hn. destruct (pre +:+ name) as [|c r] eqn:E; [|by eauto].
  apply (f_equal String.length) in E. rewrite string_app_length in E.
  destruct name; [done|]. simpl in E. lia.
Qed.

Lemma plain_last_not_slash (name : string) :
  plain name -> Path.is_some_and Path.is_slash (last_char name) = false.
Proof.
  intros (Hc & _).
  rewrite <- (last_char_forall (fun c => negb (Path.is_slash c)) name).
  - destruct (last_char name); simpl; [|done]. by rewrite negb_involutive.
  - revert Hc. apply string_forall_impl. intros c Hc.
    by rewrite (plain_char_not_slash c Hc).
Qed.

Lemma plain_last_not_win_sep (name : string) :
  plain name -> Path.is_some_and Path.is_win_sep (last_char name) = false.
Proof.
  intros (Hc & _).
  rewrite <- (last_char_forall (fun c => negb (Path.is_win_sep c)) name).
  - destruct (last_char name); simpl; [|done]. by rewrite negb_involutive.
  - revert Hc. apply string_forall_impl. intros c Hc.
    by rewrite (plain_char_not_win_sep c Hc).
Qed.

Lemma plain_split_slash (name : string) :
  plain name -> split Path.is_slash name = [name].
Proof.
  intros (Hc & _). apply split_no_sep. revert Hc.
  apply string_forall_impl. intros c Hc. by rewrite (plain_char_not_slash c Hc).
Qed.

Lemma plain_split_win_sep (name : string) :
  plain name -> split Path.is_win_sep name = [name].
Proof.
  intros (Hc & _). apply split_no_sep. revert Hc.
  apply string_forall_impl. intros c Hc. by rewrite (plain_char_not_win_sep c Hc).
Qed.

(** [path.posix.normalize] of a path whose last segment is a plain name:
    the name stays at the end, after a prefix made from the segments
    before it. *)
Lemma posix_normalize_ends_plain (p name : string) (xs : list string) :
  plain name ->
  split Path.is_slash p = xs ++ [name] ->
  last_char p = last_char name ->
  Path.posix_normalize p =
  (if Path.is_some_and Path.is_slash (first_char p) then "/" else "") +:+
  join_prefix "/"
    (Path.normalize_segments
       (negb (Path.is_some_and Path.is_slash (first_char p))) [] xs) +:+ name.
Proof.
  intros Hplain Hsplit Hlast.
  assert (p <> "") as Hp.
  { intros ->. simpl in Hsplit. destruct xs as [|x xs]; simplify_eq/=.
    - by destruct Hplain as (_ & ? & _).
    - by destruct xs. }
  unfold Path.posix_normalize.
  rewrite Hsplit, Hlast, (plain_last_not_slash _ Hplain).
  rewrite (normalize_segments_snoc _ _ _ _ Hplain), join_snoc.
  set (pre := join_prefix "/" _).
  destruct (app_plain_nonempty pre name) as (c & r & E); [apply Hplain|].
  rewrite E. destruct p; [done|].
  by destruct (Path.is_some_and Path.is_slash _).
Qed.

Lemma posix_join_plain (d name : string) :
  plain name -> Path.posix_join d name = posix_prefix d +:+ name.
Proof.
  intros Hplain.
  assert (name <> "") as Hn by apply Hplain.
  destruct d as [|a d'].
  - destruct name as [|c0 r0]; [done|].
    change (Path.posix_join "" (String c0 r0))
      with (Path.posix_normalize (String c0 r0)).
    rewrite (posix_normalize_ends_plain _ (String c0 r0) []); try done.
    + destruct Hplain as (Hc & _). simpl in Hc.
      apply andb_true_iff in Hc as [Hc _].
      simpl. by rewrite (plain_char_not_slash _ Hc).
    + by apply plain_split_slash.
  - destruct name as [|c0 r0]; [done|].
    change (Path.posix_join (String a d') (String c0 r0))
      with (Path.posix_normalize (String a d' +:+ "/" +:+ String c0 r0)).
    rewrite (posix_normalize_ends_plain _ (String c0 r0)
               (split Path.is_slash (String a d'))); try done.
    + unfold posix_prefix. rewrite string_app_cons. simpl first_char.
      by rewrite string_app_assoc.
    + change ("/" +:+ String c0 r0) with (String "/" (String c0 r0)).
      rewrite split_app_sep by done.
      by rewrite (plain_split_slash (String c0 r0)).
    + change ("/" +:+ String c0 r0) with (String "/" (String c0 r0)).
      rewrite last_char_app by done. reflexivity.
Qed.

(** The same for [path.win32.normalize]. *)
Lemma win32_normalize_ends_plain (p name dev r : string) (xs : list string) :
  plain name ->
  Path.split_device p = (dev, r) ->
  split Path.is_win_sep r = xs ++ [name] ->
  last_char r = last_char name ->
  Path.win32_normalize p =
  dev +:+
  (if Path.is_some_and Path.is_win_sep (first_char r)
   then String backslash "" else "") +:+
  join_prefix (String backslash "")
    (Path.normalize_segments
       (negb (Path.is_some_and Path.is_win_sep (first_char r))) [] xs) +:+ name.
Proof.
  intros Hplain Hdev Hsplit Hlast.
  assert (p <> "") as Hp.
  { intros ->. simpl in Hdev. simplify_eq. simpl in Hsplit.
    destruct xs as [|x xs]; simplify_eq/=.
    - by destruct Hplain as (_ & ? & _).
    - by destruct xs. }
  unfold Path.win32_normalize. rewrite Hdev.
  rewrite Hsplit, Hlast, (plain_last_not_win_sep _ Hplain).
  rewrite (normalize_segments_snoc _ _ _ _ Hplain), join_snoc.
  set (pre := join_prefix _ _).
  destruct (app_plain_nonempty pre name) as (c & r' & E); [apply Hplain|].
  rewrite E. by destruct p.
Qed.

Lemma split_device_plain (name : string) :
  plain name -> Path.split_device name = ("", name).
Proof.
  intros (Hc & _). destruct name as [|c0 [|c1 r1]]; try done.
  simpl in Hc. apply andb_true_iff in Hc as [_ Hc].
  apply andb_true_iff in Hc as [Hc _]. unfold plain_char in Hc.
  apply andb_true_iff in Hc as [_ Hc]. apply negb_true_iff in Hc.
  simpl. by rewrite Hc, andb_false_r.
Qed.

Lemma split_device_app (d name : string) :
  d <> "" ->
  Path.split_device (d +:+ String backslash name)
  = (fst (Path.split_device d),
     snd (Path.split_device d) +:+ String backslash name).
Proof.
  intros Hd. destruct d as [|a [|c d']]; [done|..].
  - change (String a "" +:+ String backslash name)
      with (String a (String backslash name)).
    unfold Path.split_device.
    rewrite (bool_decide_eq_false_2 (backslash = ":"%char)) by done.
    by rewrite andb_false_r.
  - rewrite !string_app_cons. simpl.
    by destruct (Path.is_letter a && bool_decide (c = ":"%char)).
Qed.

Lemma win32_join_plain (d name : string) :
  plain name -> Path.win32_join d name = win32_prefix d +:+ name.
Proof.
  intros Hplain.
  assert (name <> "") as Hn by apply Hplain.
  destruct d as [|a d'].
  - destruct name as [|c0 r0]; [done|].
    change (Path.win32_join "" (String c0 r0))
      with (Path.win32_normalize (String c0 r0)).
    rewrite (win32_normalize_ends_plain _ (String c0 r0) "" (String c0 r0) []);
      try done.
    + destruct Hplain as (Hc & _). simpl in Hc.
      apply andb_true_iff in Hc as [Hc _].
      simpl. by rewrite (plain_char_not_win_sep _ Hc).
    + by apply split_device_plain.
    + by apply plain_split_win_sep.
  - destruct name as [|c0 r0]; [done|].
    change (Path.win32_join (String a d') (String c0 r0))
      with (Path.win32_normalize
              (String a d' +:+ String backslash (String c0 r0))).
    set (d := String a d').
    rewrite (win32_normalize_ends_plain _ (String c0 r0)
               (fst (Path.split_device d))
               (snd (Path.split_device d) +:+ String backslash (String c0 r0))
               (split Path.is_win_sep (snd (Path.split_device d)))); try done.
    + unfold win32_prefix. subst d. cbv iota.
      set (ra := snd (Path.split_device (String a d'))).
      assert (first_char (ra +:+ String backslash (String c0 r0))
              = first_char (ra +:+ String backslash "")) as -> by (by destruct ra).
      by rewrite !string_app_assoc.
    + by apply split_device_app.
    + rewrite split_app_sep by done.
      by rewrite (plain_split_win_sep (String c0 r0)).
    + by rewrite last_char_app.
Qed.

(** Joining a directory and a plain file name puts the name, unchanged, at
    the end of a prefix that only depends on the directory. *)
Lemma path_join_plain (h : Host) (d name : string) :
  plain name -> path_join h d name = path_prefix h d +:+ name.
Proof.
  intros Hplain. unfold path_join, path_prefix.
  destruct (bool_decide (platform h = "win32")).
  - by apply win32_join_plain.
  - by apply posix_join_plain.
Qed.

Lemma pretty_N_go_plain (x : N) (s : string) :
  string_forall plain_char s = true ->
  string_forall plain_char (pretty_N_go x s) = true.
Proof.
  revert s. induction (N.lt_wf_0 x) as [x _ IH]. intros s Hs.
  destruct (decide (x = 0)%N) as [->|Hx]; [by rewrite pretty_N_go_0|].
  rewrite pretty_N_go_step by lia. apply IH.
  - apply N.div_lt; lia.
  - simpl. rewrite Hs. unfold pretty_N_char. by repeat case_match.
Qed.

Lemma pretty_Z_plain (t : Z) : string_forall plain_char (pretty t) = true.
Proof.
  assert (forall p : positive, string_forall plain_char (pretty p) = true) as Hpos.
  { intros p. unfold pretty, pretty_positive, pretty, pretty_N.
    case_decide; [done|]. by apply pretty_N_go_plain. }
  destruct t as [|p|p]; [done|apply Hpos|].
  unfold pretty, pretty_Z. rewrite string_forall_app, Hpos. reflexivity.
Qed.

Lemma tempName_plain (t : Z) : plain (tempName t).
Proof.
  unfold tempName. repeat split.
  - by rewrite !string_forall_app, pretty_Z_plain.
  - rewrite string_app_cons. discriminate.
  - rewrite string_app_cons. discriminate.
  - rewrite string_app_cons. discriminate.
Qed.

Lemma tempName_inj (t1 t2 : Z) : tempName t1 = tempName t2 -> t1 = t2.
Proof.
  unfold tempName. intros E. apply String.app_inj in E.
  apply string_app_inv_tail in E. by apply pretty_Z_inj in E.
Qed.

Lemma tempPathAt_inj (h : Host) (t1 t2 : Z) :
  tempPathAt h t1 = tempPathAt h t2 -> t1 = t2.
Proof.
  unfold tempPathAt.
  rewrite !path_join_plain by apply tempName_plain.
  intros E. apply String.app_inj in E. by apply tempName_inj.
Qed.

(** The temporary path is made from the directory of temporary files and
    the reading of the millisecond clock, and from nothing else: two
    snapshot handles of a host have the same path exactly when they were
    created at the same reading. *)
Lemma handles_share_a_path_iff_readings_agree
    (h : Host) (src1 src2 : string) (w1 w2 w1' w2' : World) (c1 c2 : TempCopy) :
  copyHistoryFile h src1 w1 = (Return c1, w1') ->
  copyHistoryFile h src2 w2 = (Return c2, w2') ->
  (path c1 = path c2 <-> now w1 = now w2).
Proof.
  intros H1 H2.
  apply copyHistoryFile_handle in H1 as ->.
  apply copyHistoryFile_handle in H2 as ->. simpl.
  split; [apply tempPathAt_inj | by intros ->].
Qed.

(** ** Where the history file and the copy are *)

Lemma posix_join_nonempty (d b : string) :
  b <> "" ->
  Path.posix_join d b
  = Path.posix_normalize (match d with EmptyString => b | _ => d +:+ "/" +:+ b end).
Proof. intros Hb. by destruct d, b. Qed.

Lemma win32_join_nonempty (d b : string) :
  b <> "" ->
  Path.win32_join d b
  = Path.win32_normalize
      (match d with EmptyString => b | _ => d +:+ String backslash "" +:+ b end).
Proof. intros Hb. by destruct d, b. Qed.

Lemma app_sep_nonempty (q name : string) (c : ascii) : q +:+ String c name <> "".
Proof. by destruct q. Qed.

(** Joining a directory with a relative path that ends in a separator and
    a plain name leaves the name at the end. *)
Lemma posix_join_ends_plain (d q name : string) :
  plain name ->
  exists pre, Path.posix_join d (q +:+ String "/" name) = pre +:+ name.
Proof.
  intros Hplain.
  rewrite posix_join_nonempty by apply app_sep_nonempty.
  assert (exists q', (match d with
                      | EmptyString => q +:+ String "/" name
                      | _ => d +:+ "/" +:+ q +:+ String "/" name
                      end) = q' +:+ String "/" name) as [q' ->].
  { destruct d as [|a d]; [by exists q|].
    exists (String a d +:+ "/" +:+ q). by rewrite !string_app_assoc. }
  rewrite (posix_normalize_ends_plain _ name (split Path.is_slash q')); try done.
  - eexists. symmetry. apply string_app_assoc.
  - rewrite split_app_sep by done. by rewrite (plain_split_slash name).
  - rewrite last_char_app by done.
    destruct name; [by destruct Hplain as (_ & ? & _)|done].
Qed.

Lemma win32_join_ends_plain (d q name : string) :
  plain name -> q <> "" ->
  exists pre, Path.win32_join d (q +:+ String backslash name) = pre +:+ name.
Proof.
  intros Hplain Hq.
  rewrite win32_join_nonempty by apply app_sep_nonempty.
  assert (exists q', q' <> "" /\
            (match d with
             | EmptyString => q +:+ String backslash name
             | _ => d +:+ String backslash "" +:+ q +:+ String backslash name
             end) = q' +:+ String backslash name) as (q' & Hq' & ->).
  { destruct d as [|a d]; [by exists q|].
    exists (String a d +:+ String backslash "" +:+ q).
    split; [done|]. by rewrite !string_app_assoc. }
  rewrite (win32_normalize_ends_plain _ name
             (fst (Path.split_device q'))
             (snd (Path.split_device q') +:+ String backslash name)
             (split Path.is_win_sep (snd (Path.split_device q')))); try done.
  - match goal with |- exists pre, ?A +:+ ?B +:+ ?C +:+ name = _ =>
      exists (A +:+ B +:+ C) end.
    by rewrite !string_app_assoc.
  - by apply split_device_app.
  - rewrite split_app_sep by done. by rewrite (plain_split_win_sep name).
  - rewrite last_char_app by done.
    destruct name; [by destruct Hplain as (_ & ? & _)|done].
Qed.

Lemma History_plain : plain "History".
Proof. by repeat split. Qed.

Lemma history_path_ends_with_History (h : Host) (p : string) :
  getChromeHistoryPath h = Return p -> exists pre, p = pre +:+ "History".
Proof.
  unfold getChromeHistoryPath, path_join.
  destruct (bool_decide (platform h = "darwin")) eqn:Hd.
  - destruct (bool_decide (platform h = "win32")) eqn:Hw.
    { apply bool_decide_eq_true in Hd, Hw. congruence. }
    intros [= <-].
    apply (posix_join_ends_plain (homedir h)
             "Library/Application Support/Google/Chrome/Default" "History"
             History_plain).
  - destruct (bool_decide (platform h = "win32")) eqn:Hw.
    + intros [= <-].
      by apply (win32_join_ends_plain (homedir h)
               "AppData\Local\Google\Chrome\User Data\Default" "History"
               History_plain).
    + destruct (bool_decide (platform h = "linux")); [|discriminate].
      intros [= <-].
      apply (posix_join_ends_plain (homedir h)
               ".config/google-chrome/Default" "History" History_plain).
Qed.

Lemma last_char_tempPathAt (h : Host) (t : Z) :
  last_char (tempPathAt h t) = Some "e"%char.
Proof.
  unfold tempPathAt. rewrite path_join_plain by apply tempName_plain.
  rewrite last_char_app by apply tempName_plain.
  unfold tempName. rewrite <- string_app_assoc. by rewrite last_char_app.
Qed.

Lemma history_path_not_temp (h : Host) (p : string) (t : Z) :
  getChromeHistoryPath h = Return p -> p <> tempPathAt h t.
Proof.
  intros Hp E. apply history_path_ends_with_History in Hp as [pre ->].
  apply (f_equal last_char) in E.
  rewrite last_char_tempPathAt, last_char_app in E by done. discriminate.
Qed.

(** ** What a run does to the file system *)

(** The files after a run, whatever fails: those before it, possibly with
    something written to, or removed from, the temporary path. *)
Lemma run_files_cases (h : Host) (limit : option Q) (w : World) :
  let tmp := tempPathAt h (now w) in
  let m := files (snd (chrome_hist_tool h limit w)) in
  m = files w \/
  m = delete tmp (files w) \/
  (exists d, m = delete tmp (<[tmp := d]> (files w))) \/
  (exists d, m = <[tmp := d]> (files w) /\
     (is_Some (unlink_fault (faults h)) \/
      exists code, copy_fault (faults h) = Some (CopyFailsAfterOpen code false))).
Proof.
  intros tmp m. subst m.
  rewrite chrome_hist_tool_unfold. unfold bind at 1, lift_outcome.
  destruct (getChromeHistoryPath h) as [src|e]; [|by left].
  unfold bind.
  destruct (files w !! src) as [data|] eqn:Hsrc.
  2:{ rewrite (existsSync_None _ _ Hsrc). by left. }
  rewrite (existsSync_Some _ _ _ Hsrc). simpl. unfold using_.
  destruct (copy_fault (faults h)) as [f|] eqn:Hcopy.
  - rewrite (copyHistoryFile_fails _ _ _ _ _ Hsrc Hcopy). fold tmp.
    destruct f as [code|code [|]]; simpl; rewrite ?tick_files.
    + by left.
    + right. by left.
    + right. right. right. exists Opaque. split; [done|]. right. by exists code.
  - rewrite (copyHistoryFile_ok _ _ _ _ Hsrc Hcopy).
    pose proof (keeps_files_query_block h limit (handle_at h (now w))
                  (world_after_copy h data w)) as Hk.
    destruct (query_block h limit (handle_at h (now w))
                (world_after_copy h data w)) as [o w2].
    simpl in Hk. fold tmp in Hk.
    assert (files w2 !! tmp = Some data) as Htmp
      by (rewrite Hk; apply lookup_insert_eq).
    unfold symbol_dispose, TempCopy_disposable. simpl. fold tmp.
    rewrite (dispose_copy_present _ _ _ _ Htmp).
    destruct (unlink_fault (faults h)) as [code|] eqn:Hu, o as [r|e]; simpl;
      rewrite Hk.
    + right. right. right. exists data. split; [done|]. left. by eexists.
    + right. right. right. exists data. split; [done|]. left. by eexists.
    + right. right. left. by exists data.
    + right. right. left. by exists data.
Qed.

Lemma run_touches_only_temp (h : Host) (limit : option Q) (w : World) (p : string) :
  p <> tempPathAt h (now w) ->
  files (snd (chrome_hist_tool h limit w)) !! p = files w !! p.
Proof.
  intros Hp.
  destruct (run_files_cases h limit w) as [E|[E|[[d E]|(d & E & _)]]];
    rewrite E; by rewrite ?lookup_delete_ne, ?lookup_insert_ne by done.
Qed.

(** ** Invocations one after the other *)



(** Two invocations within one millisecond use the same temporary path,
    and both complete as they would alone. *)
Example same_millisecond_runs_both_complete :
  let h := linux_host no_faults in
  let w := world_with linux_history four_rows mon_morning [] in
  let first := chrome_hist_tool h None w in
  let second := chrome_hist_tool h None (snd first) in
  tempPathAt h (now (snd first)) = tempPathAt h (now w) /\
  fst first = Return first_response /\
  fst second = Return first_response /\
  files (snd second) = files w.
Proof. repeat split; vm_compute; reflexivity. Qed.


(** * Further properties of the code *)

(** ** What a run changes *)

(** X1. A run of the handler, however it ends and whatever fails in it,
    changes no file but the one at its temporary path. *)
Theorem handler_touches_only_the_temporary_path
    (h : Host) (limit : option Q) (w : World) (p : string) :
  p <> tempPathAt h (now w) ->
  files (snd (chrome_hist_tool h limit w)) !! p = files w !! p.
Proof. apply run_touches_only_temp. Qed.

Lemma handler_touches_only_the_temporary_path_witness :
  let h := linux_host eio_faults in
  let w := world_with linux_history four_rows mon_morning [] in
  files (snd (chrome_hist_tool h None w)) !! linux_history
  = files w !! linux_history.
Proof.
  apply (handler_touches_only_the_temporary_path (linux_host eio_faults) None
           (world_with linux_history four_rows mon_morning []) linux_history).
  vm_compute. discriminate.
Defined.

(** X2. The history file of the browser is never written, replaced or
    removed by a run: what is at the resolved path after a run is what was
    there before, on every platform, for every home directory and
    whatever fails. *)
Theorem history_store_is_never_modified
    (h : Host) (limit : option Q) (w : World) (src : string) :
  getChromeHistoryPath h = Return src ->
  files (snd (chrome_hist_tool h limit w)) !! src = files w !! src.
Proof.
  intros Hp. apply run_touches_only_temp. by apply history_path_not_temp.
Qed.

Lemma history_store_is_never_modified_witness :
  let h := windows_host ebusy_faults in
  let w := world_with windows_history four_rows mon_morning [] in
  files (snd (chrome_hist_tool h None w)) !! windows_history
  = files w !! windows_history.
Proof.
  apply (history_store_is_never_modified (windows_host ebusy_faults) None
           (world_with windows_history four_rows mon_morning []) windows_history).
  reflexivity.
Defined.

(** X3. A run leaves no trace in the file system: if the temporary path
    was free before, the [unlink] does not fail and a failed copy did not
    leave its destination behind, the files after the run are exactly the
    files before it, whether the run ended in a response or in an error. *)
Theorem handler_restores_the_file_system
    (h : Host) (limit : option Q) (w : World) :
  files w !! tempPathAt h (now w) = None ->
  unlink_fault (faults h) = None ->
  (forall code, copy_fault (faults h) <> Some (CopyFailsAfterOpen code false)) ->
  files (snd (chrome_hist_tool h limit w)) = files w.
Proof.
  intros Hfree Hu Hc.
  destruct (run_files_cases h limit w) as [E|[E|[[d E]|(d & E & Hbad)]]];
    rewrite E.
  - done.
  - by apply delete_id.
  - rewrite delete_insert_eq. by apply delete_id.
  - destruct Hbad as [[code Hcode]|[code Hcode]]; [congruence|].
    by destruct (Hc code).
Qed.

Lemma handler_restores_the_file_system_witness :
  let h := linux_host enoent_open_faults in
  let w := world_with linux_history four_rows mon_morning [] in
  files (snd (chrome_hist_tool h None w)) = files w.
Proof.
  apply (handler_restores_the_file_system (linux_host enoent_open_faults) None
           (world_with linux_history four_rows mon_morning [])).
  - vm_compute. reflexivity.
  - reflexivity.
  - intros code. discriminate.
Defined.

(** X4. The snapshot is an exact copy: when [copyHistoryFile] returns a
    handle, the file at the handle's path holds what the source holds, the
    source exists, and no other file has changed. *)
Theorem snapshot_is_an_exact_copy
    (h : Host) (src : string) (w w1 : World) (c : TempCopy) :
  copyHistoryFile h src w = (Return c, w1) ->
  is_Some (files w !! src) /\
  files w1 !! path c = files w !! src /\
  forall p, p <> path c -> files w1 !! p = files w !! p.
Proof.
  intros Hc.
  destruct (files w !! src) as [data|] eqn:Hsrc.
  2:{ revert Hc. unfold copyHistoryFile, bind, Date_now, Fs.copyFileSync.
      by rewrite tick_files, Hsrc. }
  destruct (copy_fault (faults h)) as [f|] eqn:Hcopy.
  { rewrite (copyHistoryFile_fails _ _ _ _ _ Hsrc Hcopy) in Hc.
    by destruct f as [?|? ?]. }
  rewrite (copyHistoryFile_ok _ _ _ _ Hsrc Hcopy) in Hc.
  injection Hc as <- <-. simpl.
  split; [by eexists|]. split; [apply lookup_insert_eq|].
  intros p Hp. by apply lookup_insert_ne.
Qed.

Lemma snapshot_is_an_exact_copy_witness :
  let w := world_with linux_history four_rows mon_morning [] in
  is_Some (files w !! linux_history) /\
  files copied_world !! path copied_handle = files w !! linux_history /\
  forall p, p <> path copied_handle -> files copied_world !! p = files w !! p.
Proof.
  apply (snapshot_is_an_exact_copy (linux_host no_faults) linux_history
           (world_with linux_history four_rows mon_morning []) copied_world
           copied_handle).
  vm_compute. reflexivity.
Defined.

(** X5. Disposing a snapshot handle twice is harmless: after a disposal
    that returned, a second one returns as well and changes nothing. *)
Theorem dispose_twice_is_harmless
    (h : Host) (src : string) (w w1 w2 w3 : World) (c : TempCopy) :
  copyHistoryFile h src w = (Return c, w1) ->
  symbol_dispose c w2 = (Return tt, w3) ->
  symbol_dispose c w3 = (Return tt, w3).
Proof.
  intros Hc. apply copyHistoryFile_handle in Hc as ->.
  unfold symbol_dispose, TempCopy_disposable. simpl.
  set (tmp := tempPathAt h (now w)). intros Hd.
  apply dispose_copy_absent.
  destruct (files w2 !! tmp) as [d|] eqn:E.
  - rewrite (dispose_copy_present _ _ _ _ E) in Hd.
    destruct (unlink_fault (faults h)); [discriminate|].
    injection Hd as <-. simpl. apply lookup_delete_eq.
  - rewrite (dispose_copy_absent _ _ _ E) in Hd. by injection Hd as <-.
Qed.

Lemma dispose_twice_is_harmless_witness :
  symbol_dispose copied_handle disposed_world = (Return tt, disposed_world).
Proof.
  apply (dispose_twice_is_harmless (linux_host no_faults) linux_history
           (world_with linux_history four_rows mon_morning []) copied_world
           copied_world disposed_world copied_handle).
  - vm_compute. reflexivity.
  - vm_compute. reflexivity.
Defined.

(** ** The platform locator *)



(** ** The WSL helpers *)

Lemma string_app_empty_r (s : string) : s +:+ "" = s.
Proof. induction s as [|c s IH]; [done|]. by rewrite string_app_cons, IH. Qed.

Lemma toLowerCase_app (a b : string) :
  toLowerCase (a +:+ b) = toLowerCase a +:+ toLowerCase b.
Proof.
  induction a as [|c a IH]; [done|].
  rewrite string_app_cons. simpl. by rewrite IH.
Qed.

Lemma startsWith_app (s t : string) : startsWith s (s +:+ t) = true.
Proof.
  induction s as [|c s IH]; [done|].
  rewrite string_app_cons. simpl. by rewrite decide_True.
Qed.

Lemma includes_middle (pre s post : string) :
  includes s (pre +:+ s +:+ post) = true.
Proof.
  induction pre as [|c pre IH].
  - change ("" +:+ s +:+ post) with (s +:+ post).
    destruct (s +:+ post) eqn:E; simpl; rewrite <- ?E, startsWith_app; done.
  - rewrite string_app_cons. simpl. rewrite IH. apply orb_true_r.
Qed.


(** X7. On [linux], when the kernel release or [/proc/version] carries
    the signature [microsoft], in whatever letter case and wherever it
    stands, [isWSL] answers [true] exactly when [/proc/version] could be
    read: an unreadable [/proc/version] makes it answer [false] even with
    the signature in the kernel release. *)
Theorem isWSL_finds_the_signature
    (h : Host) (pre signature post : string) :
  platform h = "linux" ->
  toLowerCase signature = "microsoft" ->
  os_release h = pre +:+ signature +:+ post \/
  proc_version h = Some (pre +:+ signature +:+ post) ->
  isWSL h = true <-> is_Some (proc_version h).
Proof.
  intros Hp Hs Hsig. unfold isWSL. rewrite Hp. simpl.
  destruct (proc_version h) as [v|] eqn:Hv.
  - split; [by eexists|]. intros _. apply orb_true_iff.
    destruct Hsig as [Hr|[= ->]].
    + left. rewrite Hr, !toLowerCase_app, Hs. apply includes_middle.
    + right. rewrite !toLowerCase_app, Hs. apply includes_middle.
  - split; [discriminate|]. by intros [? ?].
Qed.

Lemma isWSL_finds_the_signature_witness :
  isWSL wsl_host = true <-> is_Some (proc_version wsl_host).
Proof.
  apply (isWSL_finds_the_signature wsl_host "5.15.153.1-" "microsoft"
           "-standard-WSL2").
  - reflexivity.
  - reflexivity.
  - left. reflexivity.
Defined.


(** ** Reversal and [trim] *)

Lemma rev_app_eq (s acc : string) :
  String.rev_app s acc = String.rev s +:+ acc.
Proof.
  revert acc. induction s as [|a s IH]; intros acc; [done|].
  unfold String.rev. simpl. rewrite (IH (String a acc)), (IH (String a "")).
  by rewrite string_app_assoc.
Qed.

Lemma rev_cons (a : ascii) (s : string) :
  String.rev (String a s) = String.rev s +:+ String a "".
Proof. unfold String.rev at 1. simpl. apply rev_app_eq. Qed.

Lemma rev_app_distr (x y : string) :
  String.rev (x +:+ y) = String.rev y +:+ String.rev x.
Proof.
  induction x as [|a x IH].
  - change ("" +:+ y) with y. by rewrite string_app_empty_r.
  - rewrite string_app_cons, !rev_cons, IH. by rewrite string_app_assoc.
Qed.

Lemma rev_involutive (s : string) : String.rev (String.rev s) = s.
Proof.
  induction s as [|a s IH]; [done|].
  by rewrite rev_cons, rev_app_distr, IH.
Qed.

Lemma string_forall_rev (p : ascii -> bool) (s : string) :
  string_forall p (String.rev s) = string_forall p s.
Proof.
  induction s as [|a s IH]; [done|].
  rewrite rev_cons, string_forall_app, IH. simpl.
  by rewrite andb_true_r, andb_comm.
Qed.

Lemma first_char_rev (s : string) : first_char (String.rev s) = last_char s.
Proof.
  induction s as [|a s IH]; [done|]. rewrite rev_cons.
  destruct s as [|b s]; [done|].
  rewrite first_char_app, IH; [done|].
  intros E. apply (f_equal String.rev) in E. by rewrite rev_involutive in E.
Qed.

Lemma is_space2_plain (a b : ascii) :
  (nat_of_ascii a < 128)%nat \/ (nat_of_ascii b < 128)%nat ->
  is_space2 a b = false.
Proof.
  unfold is_space2. intros H.
  destruct (Nat.eqb_spec (nat_of_ascii a) 194),
    (Nat.eqb_spec (nat_of_ascii b) 160); done || lia.
Qed.

Lemma is_space3_plain (a b c : ascii) :
  (nat_of_ascii a < 128)%nat \/ (nat_of_ascii c < 128)%nat ->
  is_space3 a b c = false.
Proof.
  unfold is_space3. intros H.
  destruct (Nat.eqb_spec (nat_of_ascii a) 225),
    (Nat.eqb_spec (nat_of_ascii a) 226), (Nat.eqb_spec (nat_of_ascii a) 227),
    (Nat.eqb_spec (nat_of_ascii a) 239); try lia;
    destruct (Nat.eqb_spec (nat_of_ascii c) 128),
      (Nat.leb_spec 128 (nat_of_ascii c)), (Nat.eqb_spec (nat_of_ascii c) 168),
      (Nat.eqb_spec (nat_of_ascii c) 169), (Nat.eqb_spec (nat_of_ascii c) 175),
      (Nat.eqb_spec (nat_of_ascii c) 159), (Nat.eqb_spec (nat_of_ascii c) 191);
    try lia; by rewrite ?andb_false_r.
Qed.

Lemma space_prefix_plain (backwards : bool) (c : ascii) (r : string) :
  plain_end (Some c) -> space_prefix backwards (String c r) = None.
Proof.
  unfold plain_end, Path.is_some_and.
  intros [Hs Hc]%orb_false_iff. apply Nat.leb_gt in Hc.
  unfold space_prefix. rewrite Hs.
  destruct r as [|b [|d r]]; [done| |].
  - by destruct backwards; rewrite is_space2_plain by lia.
  - by destruct backwards;
      rewrite is_space2_plain, is_space3_plain by lia.
Qed.

Lemma strip_id (backwards : bool) (fuel : nat) (s : string) :
  plain_end (first_char s) -> strip backwards fuel s = s.
Proof.
  intros H. destruct fuel as [|fuel]; [done|]. simpl.
  destruct s as [|c r]; [done|]. by rewrite space_prefix_plain.
Qed.

Lemma strip_blank_app (backwards : bool) (fuel : nat) (ws s : string) :
  blank ws ->
  strip backwards (String.length ws + fuel) (ws +:+ s)
  = strip backwards fuel s.
Proof.
  unfold blank. induction ws as [|c ws IH]; [done|]. simpl.
  intros [Hc Hws]%andb_true_iff. rewrite ?string_app_cons. simpl.
  rewrite Hc. by apply IH.
Qed.

Lemma strip_blank (backwards : bool) (fuel : nat) (ws : string) :
  blank ws -> (String.length ws <= fuel)%nat -> strip backwards fuel ws = "".
Proof.
  intros Hws Hf.
  replace fuel with (String.length ws + (fuel - String.length ws))%nat by lia.
  generalize (strip_blank_app backwards (fuel - String.length ws) ws "" Hws).
  rewrite string_app_empty_r. intros ->. by destruct (fuel - _)%nat.
Qed.

Lemma space_prefix_shorter (backwards : bool) (s r : string) :
  space_prefix backwards s = Some r ->
  (String.length r < String.length s)%nat /\
  exists ws, ws <> "" /\ s = ws +:+ r.
Proof.
  unfold space_prefix. destruct s as [|a [|b [|c r'']]].
  - done.
  - destruct (Ascii.is_space a); [|done]. intros [= <-]. split; [simpl; lia|].
    by exists (String a "").
  - destruct (Ascii.is_space a).
    { intros [= <-]. split; [simpl; lia|]. by exists (String a ""). }
    destruct (if backwards then _ else _); [|done].
    intros [= <-]. split; [simpl; lia|]. by exists (String a (String b "")).
  - destruct (Ascii.is_space a).
    { intros [= <-]. split; [simpl; lia|]. by exists (String a ""). }
    destruct (if backwards then is_space2 b a else is_space2 a b).
    { intros [= <-]. split; [simpl; lia|]. by exists (String a (String b "")). }
    destruct (if backwards then _ else _); [|done].
    intros [= <-]. split; [simpl; lia|].
    by exists (String a (String b (String c ""))).
Qed.

(** With enough fuel, what is left begins with no white space, and is the
    end of the string. *)
Lemma strip_done (backwards : bool) (fuel : nat) (s : string) :
  (String.length s <= fuel)%nat ->
  space_prefix backwards (strip backwards fuel s) = None /\
  exists ws, s = ws +:+ strip backwards fuel s.
Proof.
  revert s. induction fuel as [|fuel IH]; intros s Hf.
  - destruct s; [|simpl in Hf; lia]. split; [done|]. by exists "".
  - simpl. destruct (space_prefix backwards s) as [r|] eqn:E.
    + apply space_prefix_shorter in E as (Hlen & ws & _ & ->).
      destruct (IH r ltac:(lia)) as (Hnone & ws' & Hr).
      split; [done|]. exists (ws +:+ ws').
      by rewrite string_app_assoc, <- Hr.
    + split; [done|]. by exists "".
Qed.

Lemma space_prefix_None_first (backwards : bool) (s : string) :
  space_prefix backwards s = None -> no_space_at (first_char s).
Proof.
  destruct s as [|a r]; [done|]. unfold no_space_at. simpl.
  by destruct (Ascii.is_space a).
Qed.

(** [trim] removes the white space around a string and nothing else. *)
Lemma trim_spec (ws1 name ws2 : string) :
  blank ws1 -> blank ws2 ->
  plain_end (first_char name) -> plain_end (last_char name) ->
  trim (ws1 +:+ name +:+ ws2) = name.
Proof.
  intros H1 H2 Hf Hl. unfold trim, trimStart.
  rewrite string_app_length, strip_blank_app by done.
  destruct name as [|c name].
  - change ("" +:+ ws2) with ws2. simpl String.length.
    by rewrite (strip_blank false _ ws2) by (done || lia).
  - rewrite (strip_id false _ (String c name +:+ ws2)) by done.
    rewrite rev_app_distr, string_app_length, strip_blank_app.
    + rewrite strip_id; [apply rev_involutive|].
      by rewrite first_char_rev.
    + unfold blank. by rewrite string_forall_rev.
Qed.

Lemma trim_ends (s : string) :
  no_space_at (first_char (trim s)) /\ no_space_at (last_char (trim s)).
Proof.
  unfold trim.
  set (x := String.rev (trimStart s)).
  destruct (strip_done false (String.length s) s ltac:(lia)) as (Hs & _).
  fold (trimStart s) in Hs. apply space_prefix_None_first in Hs.
  assert (no_space_at (last_char x)) as Hx
    by (subst x; by rewrite <- first_char_rev, rev_involutive).
  destruct (strip_done true (String.length x) x ltac:(lia)) as (Hy & ws & E).
  apply space_prefix_None_first in Hy.
  set (y := strip true (String.length x) x) in *.
  split.
  - rewrite first_char_rev.
    destruct y as [|c y'] eqn:Ey; [done|].
    rewrite <- (last_char_app ws (String c y')) by done. by rewrite <- E.
  - by rewrite <- first_char_rev, rev_involutive.
Qed.

Example trim_strips_unicode_white_space :
  trim (" " +:+ String (ascii_of_nat 9) "Alice" +:+ String (ascii_of_nat 13) nl)
  = "Alice" /\
  trim "　山田　" = "山田" /\
  trim (String (ascii_of_nat 194) (String (ascii_of_nat 160) "bob")) = "bob".
Proof. repeat split; vm_compute; reflexivity. Qed.

(** X8. [getWindowsUsername] strips the white space around what
    [cmd.exe] printed, the line end included, and leaves the name as it
    is: a name that begins and ends with ASCII characters that are no
    white space is returned unchanged. *)
Theorem username_is_the_trimmed_output
    (h : Host) (ws1 name ws2 : string) :
  cmd_exe_username h = Some (ws1 +:+ name +:+ ws2) ->
  blank ws1 -> blank ws2 ->
  plain_end (first_char name) -> plain_end (last_char name) ->
  getWindowsUsername h = Return name.
Proof.
  intros E H1 H2 Hf Hl. unfold getWindowsUsername. rewrite E.
  by rewrite trim_spec by done.
Qed.

Lemma username_is_the_trimmed_output_witness :
  getWindowsUsername wsl_host = Return "Alice".
Proof.
  apply (username_is_the_trimmed_output wsl_host "" "Alice"
           (String (ascii_of_nat 13) nl)).
  - reflexivity.
  - reflexivity.
  - reflexivity.
  - reflexivity.
  - reflexivity.
Defined.

(** X9. Whatever [cmd.exe] printed, the user name returned neither begins
    nor ends with white space; and when the command fails, the helper
    throws its own error. *)
Theorem username_has_no_space_around (h : Host) :
  match getWindowsUsername h with
  | Return u => no_space_at (first_char u) /\ no_space_at (last_char u)
  | Throw e =>
      cmd_exe_username h = None /\
      e = Error "WSLからWindowsのユーザー名を取得できませんでした。"
  end.
Proof.
  unfold getWindowsUsername. destruct (cmd_exe_username h) as [s|]; [|done].
  apply trim_ends.
Qed.

(** ** Which rows the query returns *)

#[global] Instance recent_first_trans rank :
  Transitive (Sqlite.recent_first rank).
Proof. intros a b c. unfold Sqlite.recent_first. lia. Qed.

(** The rows of the statement for an integer limit [n] are the latest of
    the rows visited after [since]: together with the rows left out they
    are those rows, no row left out is later than a row returned, and rows
    are only left out when [n] of them were returned. *)
Lemma query_returns_the_latest (rank : UrlRow -> Z) (urls : list UrlRow)
    (since : option Q) (n : Z) :
  - 2 ^ 63 < n < 2 ^ 63 ->
  exists rows rest,
    Sqlite.query rank urls since (inject_Z n) = Return rows /\
    rows ++ rest ≡ₚ filter (Sqlite.selected since) urls /\
    (forall a b, a ∈ rows -> b ∈ rest -> last_visit_time b <= last_visit_time a) /\
    (rest = [] \/ (0 <= n /\ length rows = Z.to_nat n)).
Proof.
  intros Hrange. unfold Sqlite.query. rewrite as_integer_inject_Z by done.
  set (sorted := merge_sort (Sqlite.recent_first rank) _).
  assert (sorted ≡ₚ filter (Sqlite.selected since) urls) as Hperm
    by apply merge_sort_Permutation.
  unfold Sqlite.apply_limit. destruct (Z.ltb_spec n 0) as [Hn|Hn].
  - exists sorted, []. rewrite app_nil_r. repeat split; try done.
    + intros a b _ Hb. by apply elem_of_nil in Hb.
    + by left.
  - exists (take (Z.to_nat n) sorted), (drop (Z.to_nat n) sorted).
    rewrite take_drop. repeat split; try done.
    + intros a b Ha Hb.
      assert (StronglySorted (Sqlite.recent_first rank)
                (take (Z.to_nat n) sorted ++ drop (Z.to_nat n) sorted)) as Hs.
      { rewrite take_drop. subst sorted.
        apply StronglySorted_merge_sort; apply _. }
      pose proof (StronglySorted_app_1_elem_of _ _ _ _ _ Hs Ha Hb) as Hab.
      unfold Sqlite.recent_first in Hab. lia.
    + destruct (decide (length sorted <= Z.to_nat n)%nat) as [Hle|Hgt].
      * left. by apply drop_ge.
      * right. split; [done|]. rewrite length_take. lia.
Qed.

Lemma limit_or_10_nonzero (n : Z) :
  n <> 0 -> limit_or_10 (Some (inject_Z n)) = inject_Z n.
Proof.
  intros Hn. unfold limit_or_10.
  destruct (Qeq_bool (inject_Z n) 0) eqn:E; [|done].
  apply Qeq_bool_eq in E. unfold Qeq in E. simpl in E. lia.
Qed.

Lemma run_with_integer_limit
    (h : Host) (limit : option Q) (n : Z) (w : World) (src : string)
    (urls : list UrlRow) :
  limit_or_10 limit = inject_Z n ->
  - 2 ^ 63 < n < 2 ^ 63 ->
  getChromeHistoryPath h = Return src ->
  files w !! src = Some (HistoryDb urls) ->
  faults h = no_faults ->
  exists rows rest w',
    chrome_hist_tool h limit w = (Return (response_of h rows), w') /\
    logged_results (console w') = Some (map (toEntry h) rows) /\
    rows ++ rest ≡ₚ filter (Sqlite.selected (today h w)) urls /\
    (forall a b, a ∈ rows -> b ∈ rest -> last_visit_time b <= last_visit_time a) /\
    (rest = [] \/ (0 <= n /\ length rows = Z.to_nat n)).
Proof.
  intros Hl Hrange Hp Hsrc Hf.
  destruct (query_returns_the_latest (tie_rank h) urls (today h w) n Hrange)
    as (rows & rest & Hq & Hperm & Hord & Hrest).
  destruct (chrome_hist_tool_success h limit w src urls rows)
    as (w' & Hrun & Hlog & _); try done.
  { by rewrite Hl. }
  by exists rows, rest, w'.
Qed.

(** X10. With a positive integer limit [N] below [2 ^ 63] the response
    shows the [N] latest visits of today: the rows shown and the rows of
    today left out make up today's rows, no row left out is later than a
    row shown, and rows are left out only when [N] rows are shown. *)
Theorem response_shows_the_latest_visits
    (h : Host) (w : World) (src : string) (urls : list UrlRow) (N : Z) :
  0 < N < 2 ^ 63 ->
  getChromeHistoryPath h = Return src ->
  files w !! src = Some (HistoryDb urls) ->
  faults h = no_faults ->
  exists rows rest w',
    chrome_hist_tool h (Some (inject_Z N)) w = (Return (response_of h rows), w') /\
    logged_results (console w') = Some (map (toEntry h) rows) /\
    rows ++ rest ≡ₚ filter (Sqlite.selected (today h w)) urls /\
    (forall a b, a ∈ rows -> b ∈ rest -> last_visit_time b <= last_visit_time a) /\
    (rest = [] \/ length rows = Z.to_nat N).
Proof.
  intros HN Hp Hsrc Hf.
  destruct (run_with_integer_limit h (Some (inject_Z N)) N w src urls)
    as (rows & rest & w' & Hrun & Hlog & Hperm & Hord & Hrest);
    try done; try lia.
  { apply limit_or_10_nonzero. lia. }
  exists rows, rest, w'. repeat split; try done.
  destruct Hrest as [?|[_ ?]]; auto.
Qed.

Lemma response_shows_the_latest_visits_witness :
  let h := linux_host no_faults in
  let w := world_with linux_history four_rows mon_morning [] in
  exists rows rest w',
    chrome_hist_tool h (Some (inject_Z 2)) w = (Return (response_of h rows), w') /\
    logged_results (console w') = Some (map (toEntry h) rows) /\
    rows ++ rest ≡ₚ filter (Sqlite.selected (today h w)) four_rows /\
    (forall a b, a ∈ rows -> b ∈ rest -> last_visit_time b <= last_visit_time a) /\
    (rest = [] \/ length rows = Z.to_nat 2).
Proof.
  apply (response_shows_the_latest_visits (linux_host no_faults)
           (world_with linux_history four_rows mon_morning []) linux_history
           four_rows 2).
  - lia.
  - reflexivity.
  - reflexivity.
  - reflexivity.
Defined.

(** X11. A negative integer limit above [- 2 ^ 63] is no limit: the
    response shows every visit of today. *)
Theorem negative_limit_shows_every_visit
    (h : Host) (w : World) (src : string) (urls : list UrlRow) (N : Z) :
  - 2 ^ 63 < N < 0 ->
  getChromeHistoryPath h = Return src ->
  files w !! src = Some (HistoryDb urls) ->
  faults h = no_faults ->
  exists rows w',
    chrome_hist_tool h (Some (inject_Z N)) w = (Return (response_of h rows), w') /\
    logged_results (console w') = Some (map (toEntry h) rows) /\
    rows ≡ₚ filter (Sqlite.selected (today h w)) urls.
Proof.
  intros HN Hp Hsrc Hf.
  destruct (run_with_integer_limit h (Some (inject_Z N)) N w src urls)
    as (rows & rest & w' & Hrun & Hlog & Hperm & Hord & Hrest);
    try done; try lia.
  { apply limit_or_10_nonzero. lia. }
  exists rows, w'. repeat split; try done.
  destruct Hrest as [->|[? _]]; [by rewrite app_nil_r in Hperm | lia].
Qed.

Lemma negative_limit_shows_every_visit_witness :
  let h := linux_host no_faults in
  let w := world_with linux_history eleven_rows mon_morning [] in
  exists rows w',
    chrome_hist_tool h (Some (inject_Z (-1))) w = (Return (response_of h rows), w') /\
    logged_results (console w') = Some (map (toEntry h) rows) /\
    rows ≡ₚ filter (Sqlite.selected (today h w)) eleven_rows.
Proof.
  apply (negative_limit_shows_every_visit (linux_host no_faults)
           (world_with linux_history eleven_rows mon_morning []) linux_history
           eleven_rows (-1)).
  - lia.
  - reflexivity.
  - reflexivity.
  - reflexivity.
Defined.

(** X12. Without a limit, when at most ten visits are of today, the
    response shows them all. *)
Theorem default_limit_shows_all_of_a_short_day
    (h : Host) (w : World) (src : string) (urls : list UrlRow) :
  (length (filter (Sqlite.selected (today h w)) urls) <= 10)%nat ->
  getChromeHistoryPath h = Return src ->
  files w !! src = Some (HistoryDb urls) ->
  faults h = no_faults ->
  exists rows w',
    chrome_hist_tool h None w = (Return (response_of h rows), w') /\
    logged_results (console w') = Some (map (toEntry h) rows) /\
    rows ≡ₚ filter (Sqlite.selected (today h w)) urls.
Proof.
  intros Hshort Hp Hsrc Hf.
  destruct (run_with_integer_limit h None 10 w src urls)
    as (rows & rest & w' & Hrun & Hlog & Hperm & Hord & Hrest);
    try done; try lia.
  exists rows, w'. repeat split; try done.
  destruct Hrest as [->|[_ Hlen]]; [by rewrite app_nil_r in Hperm|].
  assert (rest = []) as ->.
  { apply Permutation_length in Hperm. rewrite length_app in Hperm.
    apply length_zero_iff_nil. change (Z.to_nat 10) with 10%nat in Hlen. lia. }
  by rewrite app_nil_r in Hperm.
Qed.

Lemma default_limit_shows_all_of_a_short_day_witness :
  let h := linux_host no_faults in
  let w := world_with linux_history four_rows mon_morning [] in
  exists rows w',
    chrome_hist_tool h None w = (Return (response_of h rows), w') /\
    logged_results (console w') = Some (map (toEntry h) rows) /\
    rows ≡ₚ filter (Sqlite.selected (today h w)) four_rows.
Proof.
  apply (default_limit_shows_all_of_a_short_day (linux_host no_faults)
           (world_with linux_history four_rows mon_morning []) linux_history
           four_rows).
  - vm_compute. lia.
  - reflexivity.
  - reflexivity.
  - reflexivity.
Defined.

(** ** A limit that is not an integer *)

Lemma as_integer_None (q : Q) :
  (forall z, ~ (q == inject_Z z)%Q) -> Sqlite.as_integer q = None.
Proof.
  intros Hq. unfold Sqlite.as_integer.
  destruct (Pos.eqb_spec (Qden (Qred q)) 1) as [E|]; [|done]. exfalso.
  destruct (Hq (Qnum (Qred q))).
  rewrite <- (Qred_correct q) at 1.
  destruct (Qred q) as [a b]. simpl in *. by subst.
Qed.

(** X13. A limit that is not an integer makes the statement, and with it
    the handler, fail with SQLite's [datatype mismatch]; the temporary
    copy is removed all the same. *)
Theorem fractional_limit_is_rejected
    (h : Host) (q : Q) (w : World) (src : string) (urls : list UrlRow) :
  (forall z, ~ (q == inject_Z z)%Q) ->
  getChromeHistoryPath h = Return src ->
  files w !! src = Some (HistoryDb urls) ->
  faults h = no_faults ->
  fst (chrome_hist_tool h (Some q) w) = Throw (SqliteError "datatype mismatch") /\
  files (snd (chrome_hist_tool h (Some q) w)) !! tempPathAt h (now w) = None.
Proof.
  intros Hq Hp Hsrc Hf.
  assert (limit_or_10 (Some q) = q) as Hl.
  { unfold limit_or_10. destruct (Qeq_bool q 0) eqn:E; [|done].
    apply Qeq_bool_eq in E. by destruct (Hq 0). }
  destruct (chrome_hist_tool_query_fails h (Some q) w src urls
              (SqliteError "datatype mismatch")) as (w' & -> & Hw'); try done.
  rewrite Hl. unfold Sqlite.query. by rewrite (as_integer_None q Hq).
Qed.

Lemma fractional_limit_is_rejected_witness :
  let h := linux_host no_faults in
  let w := world_with linux_history four_rows mon_morning [] in
  fst (chrome_hist_tool h (Some (5 # 2)) w)
  = Throw (SqliteError "datatype mismatch") /\
  files (snd (chrome_hist_tool h (Some (5 # 2)) w)) !! tempPathAt h (now w) = None.
Proof.
  apply (fractional_limit_is_rejected (linux_host no_faults) (5 # 2)
           (world_with linux_history four_rows mon_morning []) linux_history
           four_rows).
  - intros z E. unfold Qeq in E. simpl in E. lia.
  - reflexivity.
  - reflexivity.
  - reflexivity.
Defined.

(** ** The shape of a response *)

Lemma or_else_nonempty (s d : string) : d <> "" -> or_else s d <> "".
Proof. by destruct s. Qed.

Lemma query_block_returns
    (h : Host) (limit : option Q) (c : TempCopy) (w w' : World) (r : Response) :
  query_block h limit c w = (Return r, w') -> exists rows, r = response_of h rows.
Proof.
  unfold query_block, using_, openSqlite, bind, ret, Date_now, console_log,
    symbol_dispose, DbHandle_disposable.
  destruct (Sqlite.open_readonly h (path c) w) as [[d|e] w1]; [|discriminate].
  simpl.
  destruct (Sqlite.prepare_all h d _ _ (tick w1)) as [[rows|e] w2]; simpl.
  - destruct (Sqlite.close h d _) as [[[]|e] w3]; [|discriminate].
    intros [= <- _]. by exists rows.
  - destruct (Sqlite.close h d _) as [[[]|e'] w3]; discriminate.
Qed.

(** X14. Whenever the handler returns a response, whatever the host and
    the limit, the response is the rendering of some rows: its two fields
    hold the same text, and the text is not empty. *)
Theorem response_fields_agree
    (h : Host) (limit : option Q) (w w' : World) (r : Response) :
  chrome_hist_tool h limit w = (Return r, w') ->
  (exists rows, r = response_of h rows) /\ text r = result r /\ text r <> "".
Proof.
  rewrite chrome_hist_tool_unfold. unfold bind at 1, lift_outcome.
  destruct (getChromeHistoryPath h) as [src|e]; [|discriminate].
  unfold bind, Fs.existsSync.
  destruct (bool_decide (is_Some (files w !! src))); [|discriminate]. simpl.
  unfold using_.
  destruct (copyHistoryFile h src w) as [[c|e] w1]; [|discriminate].
  destruct (query_block h limit c w1) as [[r'|e] w2] eqn:Hb.
  2:{ by destruct (symbol_dispose c w2) as [[[]|d] w3]. }
  destruct (symbol_dispose c w2) as [[[]|d] w3]; [|discriminate].
  intros [= <- _]. apply query_block_returns in Hb as [rows ->].
  split; [by exists rows|]. split; [done|]. by apply or_else_nonempty.
Qed.

Lemma response_fields_agree_witness :
  (exists rows, first_response = response_of (linux_host no_faults) rows) /\
  text first_response = result first_response /\
  text first_response <> "".
Proof.
  apply (response_fields_agree (linux_host no_faults) None
           (world_with linux_history four_rows mon_morning [])
           (snd (chrome_hist_tool (linux_host no_faults) None
                   (world_with linux_history four_rows mon_morning [])))
           first_response).
  vm_compute. reflexivity.
Defined.

(** ** The fixed message of an empty day *)

Lemma join_starts_with_hash (e : Entry) (l : list string) :
  exists s, join nl (formatEntry e :: l) = String "#" s.
Proof.
  unfold formatEntry. destruct l; simpl join; rewrite !string_app_cons;
    by eexists.
Qed.

Lemma response_of_empty_iff (h : Host) (rows : list UrlRow) :
  text (response_of h rows) = "No browsing history found." <-> rows = [].
Proof.
  split; [|by intros ->].
  destruct rows as [|r rows]; [done|]. intros E. exfalso.
  unfold response_of in E. cbn [text map] in E.
  destruct (join_starts_with_hash (toEntry h r)
              (map formatEntry (map (toEntry h) rows))) as [s Hs].
  rewrite Hs in E. discriminate.
Qed.

Lemma limit_or_10_integer (limit : option Z) :
  within_int64 limit ->
  exists n,
    n <> 0 /\ - 2 ^ 63 < n < 2 ^ 63 /\
    limit_or_10 (limit_of limit) = inject_Z n.
Proof.
  destruct limit as [z|]; simpl; [|by exists 10].
  intros Hz. destruct (decide (z = 0)) as [->|Hz0]; [by exists 10|].
  exists z. split; [done|]. split; [done|]. by apply limit_or_10_nonzero.
Qed.

(** X15. With no limit or an integer one that SQLite accepts, on a host
    where nothing fails, the response is the fixed text
    [No browsing history found.] exactly when the statement selects no row:
    the history holds no visit later than the start of the local day. *)
Theorem empty_day_message
    (h : Host) (limit : option Z) (w : World) (src : string)
    (urls : list UrlRow) :
  within_int64 limit ->
  getChromeHistoryPath h = Return src ->
  files w !! src = Some (HistoryDb urls) ->
  faults h = no_faults ->
  exists r w',
    chrome_hist_tool h (limit_of limit) w = (Return r, w') /\
    (text r = "No browsing history found."
     <-> Forall (fun row => ~ Sqlite.selected (today h w) row) urls).
Proof.
  intros Hfit Hp Hsrc Hf.
  destruct (limit_or_10_integer limit Hfit) as (n & Hn & Hrange & Hl).
  destruct (run_with_integer_limit h (limit_of limit) n w src urls)
    as (rows & rest & w' & Hrun & Hlog & Hperm & Hord & Hrest); try done.
  exists (response_of h rows), w'. split; [done|].
  rewrite response_of_empty_iff.
  assert (rows = [] <-> filter (Sqlite.selected (today h w)) urls = [])
    as ->.
  { split.
    - intros ->. destruct Hrest as [->|[Hn0 Hlen]].
      + simpl in Hperm. symmetry. by apply Permutation_nil_l.
      + simpl in Hlen. lia.
    - intros E. rewrite E in Hperm. apply Permutation_nil_r in Hperm.
      by apply app_eq_nil in Hperm as [-> _]. }
  split.
  - intros E. apply Forall_forall. intros row Hrow Hsel.
    assert (row ∈ filter (Sqlite.selected (today h w)) urls) as Hin
      by (by apply list_elem_of_filter).
    rewrite E in Hin. by apply elem_of_nil in Hin.
  - intros Hall. destruct (filter _ urls) as [|row l] eqn:E; [done|].
    assert (row ∈ filter (Sqlite.selected (today h w)) urls) as Hin
      by (rewrite E; left).
    apply list_elem_of_filter in Hin as [Hlt Hin].
    rewrite Forall_forall in Hall. by destruct (Hall row Hin).
Qed.

Lemma empty_day_message_witness :
  let h := linux_host no_faults in
  let w := world_with linux_history four_rows mon_morning [] in
  exists r w',
    chrome_hist_tool h (limit_of (Some 3)) w = (Return r, w') /\
    (text r = "No browsing history found."
     <-> Forall (fun row => ~ Sqlite.selected (today h w) row) four_rows).
Proof.
  apply (empty_day_message (linux_host no_faults) (Some 3)
           (world_with linux_history four_rows mon_morning []) linux_history
           four_rows).
  - simpl. lia.
  - reflexivity.
  - reflexivity.
  - reflexivity.
Defined.

(** ** The time window of the query *)

(** On the day on which daylight saving time ends the local day has 25
    hours. At 23:30 of that day in New York (2024-11-04T04:30:00Z) the
    start of the day is 2024-11-03T04:00:00Z, 24 hours and a half before,
    and a visit at 00:30 of that day is shown. *)
Example start_of_a_day_of_25_hours :
  JsDate.setHours0 new_york_2024 1730694600000 = Some 1730606400000 /\
  fst (chrome_hist_tool new_york_host None
         (world_with linux_history
            [row "N" "https://n.example/" 13375081800000000]
            1730694600000 []))
  = Return
      (let s :=
         "## N" +:+ nl +:+ "  - URL: https://n.example/" +:+ nl +:+
         "  - Visited At: 2024/11/3 0:30:00" +:+ nl in
       {| text := s; result := s |}).
Proof. split; vm_compute; reflexivity. Qed.

(** A row stored one microsecond after the start of the day is selected,
    and the time shown for it is the start of the day itself: the stored
    integer is handed over rounded. *)
Example first_microsecond_of_the_day :
  Sqlite.selected (Some (inject_Z mon_midnight_raw))
    (row "M" "https://m.example/" (mon_midnight_raw + 1)) /\
  JsDate.of_number
    (visitTimeMs (Binary64.round (inject_Z (mon_midnight_raw + 1))))
  = Some 1705244400000.
Proof. split; vm_compute; reflexivity. Qed.

(** X16. For a start of the day [s] up to the year 3884, the comparison
    of the statement is the comparison of the stored integer with the
    exact encoding of [s], and the number that line 131 computes for a
    selected row is never before [s]. *)
Theorem selected_rows_are_of_today (s raw : Z) :
  0 <= s ->
  (s + WEBKIT_EPOCH_OFFSET) * 125 <= 2 ^ 53 ->
  let bound := chromeTimeStart (inject_Z s) in
  ((bound < inject_Z raw)%Q <-> (s + WEBKIT_EPOCH_OFFSET) * 1000 < raw) /\
  ((bound < inject_Z raw)%Q ->
   (inject_Z s <= visitTimeMs (Binary64.round (inject_Z raw)))%Q).
Proof.
  intros Hs Hrange bound.
  assert (0 < WEBKIT_EPOCH_OFFSET) as HO by reflexivity.
  assert (bound == inject_Z ((s + WEBKIT_EPOCH_OFFSET) * 1000))%Q as E
    by (apply chromeTimeStart_exact; lia).
  assert ((bound < inject_Z raw)%Q <-> (s + WEBKIT_EPOCH_OFFSET) * 1000 < raw)
    as Hiff by (by rewrite E, <- Zlt_Qlt).
  split; [exact Hiff|].
  intros Hsel. apply Hiff in Hsel.
  apply visitTimeMs_ge; lia.
Qed.

Lemma selected_rows_are_of_today_witness :
  let bound := chromeTimeStart (inject_Z 1705244400000) in
  ((bound < inject_Z (mon_midnight_raw + 1))%Q
   <-> (1705244400000 + WEBKIT_EPOCH_OFFSET) * 1000 < mon_midnight_raw + 1) /\
  ((bound < inject_Z (mon_midnight_raw + 1))%Q ->
   (inject_Z 1705244400000
    <= visitTimeMs (Binary64.round (inject_Z (mon_midnight_raw + 1))))%Q).
Proof.
  apply (selected_rows_are_of_today 1705244400000 (mon_midnight_raw + 1)).
  - lia.
  - vm_compute. discriminate.
Defined.

Lemma setHours0_fixed_offset (z : JsDate.TimeZone) (t : Z) :
  JsDate.transitions z = [] ->
  - JsDate.maxTime + 86400000 <= t <= JsDate.maxTime ->
  JsDate.setHours0 z t
  = Some (t - (t + JsDate.first_offset z) mod 86400000).
Proof.
  intros Hz Ht.
  unfold JsDate.setHours0, JsDate.UTC, JsDate.LocalTime, JsDate.offset_at,
    JsDate.msPerDay.
  rewrite Hz. simpl.
  set (o := JsDate.first_offset z).
  pose proof (Z.div_mod (t + o) 86400000 ltac:(lia)) as Hdm.
  pose proof (Z.mod_pos_bound (t + o) 86400000 ltac:(lia)) as Hmod.
  replace ((t + o) / 86400000 * 86400000 - o)
    with (t - (t + o) mod 86400000) by lia.
  unfold JsDate.time_clip.
  destruct (Z.leb_spec (Z.abs (t - (t + o) mod 86400000)) JsDate.maxTime);
    [done|]. unfold JsDate.maxTime in *. lia.
Qed.

(** X17. On a host whose time zone has one offset and no transitions, the
    window of the query begins at the local midnight at or before the
    reading of the clock, less than a day before it. *)
Theorem window_begins_at_the_last_midnight (h : Host) (w : World) :
  JsDate.transitions (timezone h) = [] ->
  - JsDate.maxTime + 86400000 <= now (tick w) <= JsDate.maxTime ->
  exists s,
    today h w = Some (chromeTimeStart (inject_Z s)) /\
    s <= now (tick w) < s + 86400000 /\
    (s + JsDate.first_offset (timezone h)) mod 86400000 = 0.
Proof.
  intros Hz Ht.
  set (t := now (tick w)) in *. set (o := JsDate.first_offset (timezone h)).
  exists (t - (t + o) mod 86400000).
  unfold today. fold t. rewrite (setHours0_fixed_offset _ _ Hz Ht). fold o.
  split; [done|].
  pose proof (Z.div_mod (t + o) 86400000 ltac:(lia)) as Hdm.
  pose proof (Z.mod_pos_bound (t + o) 86400000 ltac:(lia)) as Hmod.
  split; [lia|].
  replace (t - (t + o) mod 86400000 + o)
    with ((t + o) / 86400000 * 86400000) by lia.
  apply Z.mod_mul. lia.
Qed.

Lemma window_begins_at_the_last_midnight_witness :
  let h := linux_host no_faults in
  let w := world_with linux_history four_rows mon_morning [] in
  exists s,
    today h w = Some (chromeTimeStart (inject_Z s)) /\
    s <= now (tick w) < s + 86400000 /\
    (s + JsDate.first_offset (timezone h)) mod 86400000 = 0.
Proof.
  apply (window_begins_at_the_last_midnight (linux_host no_faults)
           (world_with linux_history four_rows mon_morning [])).
  - reflexivity.
  - split; vm_compute; discriminate.
Defined.

(** ** The feed tools *)

(** X18. The two feed tools always answer with a response and never
    throw: whatever the request to the feed does, the handler returns, the
    two fields of the response hold the same text, the text is not empty,
    and the world is as before. *)
Theorem feed_tools_always_respond :
  (forall parseURL topic w,
     exists r, Server.qiita_feed parseURL topic w = (Return r, w) /\
               text r = result r /\ text r <> "") /\
  (forall parseURL topic w,
     exists r, Zenn.zenn_feed parseURL topic w = (Return r, w) /\
               text r = result r /\ text r <> "").
Proof.
  split; intros parseURL topic w.
  - unfold Server.qiita_feed, try_catch, bind, lift_outcome, ret.
    destruct (parseURL _) as [items|e]; eexists; (split; [reflexivity|]);
      (split; [reflexivity|]); simpl; [by apply or_else_nonempty|done].
  - unfold Zenn.zenn_feed, try_catch, bind, lift_outcome, ret.
    destruct (parseURL _) as [items|e]; eexists; (split; [reflexivity|]);
      (split; [reflexivity|]); simpl; [by apply or_else_nonempty|done].
Qed.

(** Cutting twice is cutting once, also where the cut left a lone
    surrogate: it counts as one code unit. *)
Lemma take_units_idemp (n pending : nat) (s : string) :
  Server.take_units n pending (Server.take_units n pending s)
  = Server.take_units n pending s.
Proof.
  revert n pending. induction s as [|c r IH]; intros n pending; [done|].
  destruct pending as [|p].
  2:{ cbn [Server.take_units]. by rewrite IH. }
  destruct n as [|n']; [done|].
  cbn [Server.take_units].
  destruct (Server.continuation_bytes c) as [|[|[|[|k]]]] eqn:E.
  - cbn [Server.take_units]. by rewrite E, IH.
  - cbn [Server.take_units]. by rewrite E, IH.
  - cbn [Server.take_units]. by rewrite E, IH.
  - destruct n' as [|n''].
    + unfold Server.high_surrogate. cbn [Server.take_units].
      change (Server.continuation_bytes (ascii_of_nat 237)) with 2%nat.
      reflexivity.
    + cbn [Server.take_units]. by rewrite E, IH.
  - cbn [Server.take_units]. by rewrite E, IH.
Qed.

Lemma string_take_idemp (n : nat) (s : string) :
  Server.string_take n (Server.string_take n s) = Server.string_take n s.
Proof. apply take_units_idemp. Qed.

Example string_take_counts_code_units :
  Server.string_take 2 "あいう" = "あい" /\
  Server.string_take 3 "a😀b" = "a😀" /\
  Server.string_take 2 "a😀b"
  = String "a" (String (ascii_of_nat 237) (String (ascii_of_nat 160)
      (String (ascii_of_nat 189) ""))).
Proof. repeat split; vm_compute; reflexivity. Qed.

Lemma clip_snippet_idemp (o : option string) :
  default "" (Server.string_take 300 <$> clip_snippet o)
  = default "" (Server.string_take 300 <$> o).
Proof.
  destruct o as [s|]; [|done].
  exact (string_take_idemp 300 s).
Qed.

Lemma qiita_articles_of_clipped (items : list Server.FeedItem) :
  map (fun item =>
         {| Server.article_title := Server.item_title item;
            Server.article_link := Server.item_link item;
            Server.article_pubDate := Server.item_pubDate item;
            Server.article_snippet :=
              default "" (Server.string_take 300 <$> Server.item_contentSnippet item) |})
      (take 100 (clip_qiita items))
  = map (fun item =>
         {| Server.article_title := Server.item_title item;
            Server.article_link := Server.item_link item;
            Server.article_pubDate := Server.item_pubDate item;
            Server.article_snippet :=
              default "" (Server.string_take 300 <$> Server.item_contentSnippet item) |})
      (take 100 items).
Proof.
  unfold clip_qiita.
  rewrite take_ge by (rewrite length_map, length_take; lia).
  rewrite map_map. apply map_ext. intros item.
  cbv beta. cbn [Server.item_title Server.item_link Server.item_pubDate
                 Server.item_contentSnippet].
  by rewrite clip_snippet_idemp.
Qed.

Lemma zenn_articles_of_clipped (items : list Zenn.FeedItem) :
  map (fun item =>
         {| Zenn.article_title := Zenn.item_title item;
            Zenn.article_link := Zenn.item_link item;
            Zenn.article_pubDate := Zenn.item_pubDate item;
            Zenn.article_snippet :=
              default "" (Server.string_take 300 <$> Zenn.item_contentSnippet item);
            Zenn.article_creator := Zenn.item_creator item |})
      (take 100 (clip_zenn items))
  = map (fun item =>
         {| Zenn.article_title := Zenn.item_title item;
            Zenn.article_link := Zenn.item_link item;
            Zenn.article_pubDate := Zenn.item_pubDate item;
            Zenn.article_snippet :=
              default "" (Server.string_take 300 <$> Zenn.item_contentSnippet item);
            Zenn.article_creator := Zenn.item_creator item |})
      (take 100 items).
Proof.
  unfold clip_zenn.
  rewrite take_ge by (rewrite length_map, length_take; lia).
  rewrite map_map. apply map_ext. intros item.
  cbv beta. cbn [Zenn.item_title Zenn.item_link Zenn.item_pubDate
                 Zenn.item_contentSnippet Zenn.item_creator].
  by rewrite clip_snippet_idemp.
Qed.

(** X19. Of a feed, the feed tools read the first hundred items and, of
    each snippet, the first three hundred UTF-16 code units, which is what
    [substring] counts: whatever else the feed holds never changes the
    response. *)
Theorem feed_tools_read_a_clipped_feed :
  (forall parseURL topic w,
     Server.qiita_feed parseURL topic w
     = Server.qiita_feed (fun u => clipped clip_qiita (parseURL u)) topic w) /\
  (forall parseURL topic w,
     Zenn.zenn_feed parseURL topic w
     = Zenn.zenn_feed (fun u => clipped clip_zenn (parseURL u)) topic w).
Proof.
  split; intros parseURL topic w.
  - unfold Server.qiita_feed, try_catch, bind, lift_outcome, ret, clipped.
    destruct (parseURL _) as [items|e]; [|reflexivity].
    cbv beta iota zeta. by rewrite qiita_articles_of_clipped.
  - unfold Zenn.zenn_feed, try_catch, bind, lift_outcome, ret, clipped.
    destruct (parseURL _) as [items|e]; [|reflexivity].
    cbv beta iota zeta.
    change (if (100 =? 0)%nat then 10%nat else 100%nat) with 100%nat.
    by rewrite zenn_articles_of_clipped.
Qed.

(** ** The URL of a feed *)

Lemma hex_digit_code (n : nat) :
  (n < 16)%nat ->
  nat_of_ascii (Server.hex_digit n) = (if (n <? 10)%nat then 48 + n else 55 + n)%nat.
Proof.
  intros Hn. unfold Server.hex_digit.
  destruct (n <? 10)%nat; apply nat_ascii_embedding; lia.
Qed.

Lemma hex_digit_inj (n m : nat) :
  (n < 16)%nat -> (m < 16)%nat ->
  Server.hex_digit n = Server.hex_digit m -> n = m.
Proof.
  intros Hn Hm E. apply (f_equal nat_of_ascii) in E.
  rewrite !hex_digit_code in E by done.
  destruct (Nat.ltb_spec n 10), (Nat.ltb_spec m 10); lia.
Qed.

Lemma hex_digit_unreserved (n : nat) :
  (n < 16)%nat -> Server.is_unreserved (Server.hex_digit n) = true.
Proof.
  intros Hn. unfold Server.is_unreserved. rewrite hex_digit_code by done.
  apply orb_true_iff. left.
  destruct (Nat.ltb_spec n 10).
  - apply orb_true_iff. left. apply orb_true_iff. left.
    apply andb_true_iff. split; apply Nat.leb_le; lia.
  - apply orb_true_iff. left. apply orb_true_iff. right.
    apply andb_true_iff. split; apply Nat.leb_le; lia.
Qed.

Lemma nat_of_ascii_lt (c : ascii) : (nat_of_ascii c < 256)%nat.
Proof. apply nat_ascii_bounded. Qed.

Lemma encodeURIComponent_cons (c : ascii) (r : string) :
  Server.encodeURIComponent (String c r)
  = if Server.is_unreserved c then String c (Server.encodeURIComponent r)
    else String "%" (String (Server.hex_digit (nat_of_ascii c / 16))
           (String (Server.hex_digit (nat_of_ascii c mod 16))
              (Server.encodeURIComponent r))).
Proof. reflexivity. Qed.

Lemma string_forall_cons (f : ascii -> bool) (c : ascii) (s : string) :
  string_forall f (String c s) = f c && string_forall f s.
Proof. reflexivity. Qed.

Lemma encodeURIComponent_safe (s : string) :
  string_forall url_safe (Server.encodeURIComponent s) = true.
Proof.
  induction s as [|c s IH]; [done|]. rewrite encodeURIComponent_cons.
  pose proof (nat_of_ascii_lt c) as Hc.
  destruct (Server.is_unreserved c) eqn:E; rewrite !string_forall_cons, IH.
  - unfold url_safe. by rewrite E.
  - unfold url_safe.
    rewrite !hex_digit_unreserved; [done|..].
    + apply Nat.mod_upper_bound. lia.
    + apply Nat.Div0.div_lt_upper_bound. lia.
Qed.

Lemma encodeURIComponent_id (s : string) :
  string_forall Server.is_unreserved s = true -> Server.encodeURIComponent s = s.
Proof.
  induction s as [|c s IH]; [done|]. simpl.
  intros [Hc Hs]%andb_true_iff. by rewrite Hc, IH.
Qed.

Lemma encodeURIComponent_inj (s t : string) :
  Server.encodeURIComponent s = Server.encodeURIComponent t -> s = t.
Proof.
  revert t. induction s as [|c s IH]; intros [|d t];
    rewrite ?encodeURIComponent_cons.
  - done.
  - by destruct (Server.is_unreserved d).
  - by destruct (Server.is_unreserved c).
  - pose proof (nat_of_ascii_lt c) as Hc. pose proof (nat_of_ascii_lt d) as Hd.
    destruct (Server.is_unreserved c) eqn:Ec, (Server.is_unreserved d) eqn:Ed.
    + intros [= -> E]. f_equal. by apply IH.
    + intros [= -> _]. discriminate.
    + intros [= <- _]. discriminate.
    + pose proof (Nat.div_mod_eq (nat_of_ascii c) 16) as Hc'.
      pose proof (Nat.div_mod_eq (nat_of_ascii d) 16) as Hd'.
      assert (nat_of_ascii c / 16 < 16 /\ nat_of_ascii c mod 16 < 16)%nat
        as [Hc1 Hc2]
        by (split; [apply Nat.Div0.div_lt_upper_bound|apply Nat.mod_upper_bound];
            lia).
      assert (nat_of_ascii d / 16 < 16 /\ nat_of_ascii d mod 16 < 16)%nat
        as [Hd1 Hd2]
        by (split; [apply Nat.Div0.div_lt_upper_bound|apply Nat.mod_upper_bound];
            lia).
      revert Hc' Hd' Hc1 Hc2 Hd1 Hd2.
      generalize (nat_of_ascii c / 16)%nat (nat_of_ascii c mod 16)%nat
                 (nat_of_ascii d / 16)%nat (nat_of_ascii d mod 16)%nat.
      intros qc rc qd rd Hc' Hd' Hc1 Hc2 Hd1 Hd2 [= E1 E2 E].
      apply IH in E as ->.
      apply hex_digit_inj in E1, E2; try done.
      f_equal. rewrite <- (ascii_nat_embedding c), <- (ascii_nat_embedding d).
      f_equal. lia.
Qed.

(** X20. Each feed tool asks the network for one feed only, the one at
    its [feedUrl]. Without a topic, or with an empty one, that is the
    general feed. With a topic it is the fixed address with the encoded
    topic in the middle, and the encoded topic is made of unreserved
    characters and percent escapes only, so that a topic cannot add a
    path segment or a query to the address; a topic of unreserved
    characters stands in it as it is. *)
Theorem feed_url_is_built_from_the_topic :
  (forall parseURL parseURL' topic w,
     parseURL (qiita_feedUrl topic) = parseURL' (qiita_feedUrl topic) ->
     Server.qiita_feed parseURL topic w = Server.qiita_feed parseURL' topic w) /\
  (forall parseURL parseURL' topic w,
     parseURL (Zenn.feedUrl topic) = parseURL' (Zenn.feedUrl topic) ->
     Zenn.zenn_feed parseURL topic w = Zenn.zenn_feed parseURL' topic w) /\
  qiita_feedUrl None = "https://qiita.com/popular-items/feed.atom" /\
  qiita_feedUrl (Some "") = "https://qiita.com/popular-items/feed.atom" /\
  Zenn.feedUrl None = "https://zenn.dev/feed" /\
  Zenn.feedUrl (Some "") = "https://zenn.dev/feed" /\
  (forall t, t <> "" ->
     exists encoded,
       qiita_feedUrl (Some t) = "https://qiita.com/tags/" +:+ encoded +:+ "/feed" /\
       Zenn.feedUrl (Some t) = "https://zenn.dev/topics/" +:+ encoded +:+ "/feed" /\
       string_forall url_safe encoded = true /\
       (string_forall Server.is_unreserved t = true -> encoded = t)).
Proof.
  split.
  { intros parseURL parseURL' topic w E.
    unfold Server.qiita_feed, try_catch, bind, lift_outcome.
    fold (qiita_feedUrl topic). by rewrite E. }
  split.
  { intros parseURL parseURL' topic w E.
    unfold Zenn.zenn_feed, try_catch, bind, lift_outcome. by rewrite E. }
  repeat (split; [reflexivity|]).
  intros t Ht. exists (Server.encodeURIComponent t).
  destruct t as [|c t]; [done|].
  repeat split; [apply encodeURIComponent_safe | apply encodeURIComponent_id].
Qed.

(** X21. Different topics never share a feed address: from the address of
    a topic's feed the topic can be told. *)
Theorem feed_url_tells_the_topic (t1 t2 : string) :
  t1 <> "" -> t2 <> "" ->
  (qiita_feedUrl (Some t1) = qiita_feedUrl (Some t2) -> t1 = t2) /\
  (Zenn.feedUrl (Some t1) = Zenn.feedUrl (Some t2) -> t1 = t2).
Proof.
  intros H1 H2. destruct t1 as [|c1 t1], t2 as [|c2 t2]; try done.
  split; intros E; unfold qiita_feedUrl, Zenn.feedUrl in E;
    apply String.app_inj in E; apply string_app_inv_tail in E;
    by apply encodeURIComponent_inj.
Qed.

Lemma feed_url_tells_the_topic_witness :
  (qiita_feedUrl (Some "c++") = qiita_feedUrl (Some "c%2B%2B")
   -> "c++" = "c%2B%2B") /\
  (Zenn.feedUrl (Some "c++") = Zenn.feedUrl (Some "c%2B%2B")
   -> "c++" = "c%2B%2B").
Proof.
  apply (feed_url_tells_the_topic "c++" "c%2B%2B").
  - discriminate.
  - discriminate.
Defined.

(** ** The search tool *)

(** X22. The search tool has no [catch]: an error of the service leaves
    the handler as that error. When the service answers, the response
    holds the text of the answer in both fields, or [No results found.]
    when the answer has no text or an empty one; the text of a response is
    never empty. The contents of the request are the query behind a fixed
    prefix. *)
Theorem search_tool_passes_answer_and_error
    (generateContent : string -> string -> string -> Outcome (option string))
    (apiKey query : string) (w : World) :
  match generateContent apiKey "gemini-2.5-flash"
          ("Search results for query: " +:+ query) with
  | Throw e =>
      Gemini.grounding_search_gemini generateContent apiKey query w = (Throw e, w)
  | Return answer =>
      exists r w',
        Gemini.grounding_search_gemini generateContent apiKey query w
        = (Return r, w') /\
        text r = result r /\ text r <> "" /\
        match answer with
        | Some (String c s) => text r = String c s
        | _ => text r = "No results found."
        end
  end.
Proof.
  unfold Gemini.grounding_search_gemini, bind, lift_outcome, console_log, ret.
  destruct (generateContent _ _ _) as [answer|e]; [|done].
  eexists _, _. split; [reflexivity|]. simpl.
  split; [done|]. split; [by apply or_else_nonempty|].
  by destruct answer as [[|c s]|].
Qed.
